(** * SFC threads paginator: a shallow embedding of [paginator.js]

    The script groups the rows of the [#posts] table into blocks, shows one
    page of ten blocks at a time, and drives the pages from a small
    Previous / Next widget.  The DOM is modelled as an explicit store: the
    rows picked by [querySelectorAll] form a list in document order, a row
    object is referred to by its position in that list, and assignments to
    [tr.style.display] update the store in place. *)

From Stdlib Require Import ZArith String Ascii List Bool Lia DecimalString.
From stdpp Require Import base tactics option list strings.

Open Scope string_scope.
Open Scope list_scope.

(** ** Class names: the word-boundary test and the class-token test *)

Module ClassName.

(** [\w] of a JavaScript regular expression without the [u] flag. *)
Definition is_word_char (c : ascii) : bool :=
  let n := nat_of_ascii c in
  (((48 <=? n) && (n <=? 57)) || ((65 <=? n) && (n <=? 90))
   || (n =? 95) || ((97 <=? n) && (n <=? 122)))%nat.

(** ASCII whitespace, the separators of a [class] attribute. *)
Definition is_ascii_whitespace (c : ascii) : bool :=
  Ascii.eqb c "009" || Ascii.eqb c "010" || Ascii.eqb c "012"
  || Ascii.eqb c "013" || Ascii.eqb c " ".

Definition head_is_word (s : string) : bool :=
  match s with
  | EmptyString => false
  | String c _ => is_word_char c
  end.

(** [strip_prefix w s] is what follows [w] when [s] starts with [w]. *)
Fixpoint strip_prefix (w s : string) : option string :=
  match w, s with
  | EmptyString, _ => Some s
  | String a w', String b s' =>
      if Ascii.eqb a b then strip_prefix w' s' else None
  | String _ _, EmptyString => None
  end.

Fixpoint last_is_word (prev : bool) (w : string) : bool :=
  match w with
  | EmptyString => prev
  | String c w' => last_is_word (is_word_char c) w'
  end.

(** [\b w \b] matched at the head of [s]; [prev] tells whether the
    character before the head is a word character (false at the start). *)
Definition match_here (w : string) (prev : bool) (s : string) : bool :=
  xorb prev (head_is_word s)
  && match strip_prefix w s with
     | Some rest => xorb (last_is_word prev w) (head_is_word rest)
     | None => false
     end.

Fixpoint scan (w : string) (prev : bool) (s : string) : bool :=
  match_here w prev s
  || match s with
     | EmptyString => false
     | String c s' => scan w (is_word_char c) s'
     end.

(** [/\bw\b/.test(cls)] for a literal [w]. *)
Definition word_test (w cls : string) : bool := scan w false cls.

(** The tokens of a class attribute, as [classList] and the selector
    [tr.post] see them. *)
Fixpoint tokens_from (cur : string) (s : string) : list string :=
  match s with
  | EmptyString => match cur with EmptyString => [] | _ => [cur] end
  | String c s' =>
      if is_ascii_whitespace c
      then match cur with
           | EmptyString => tokens_from EmptyString s'
           | _ => cur :: tokens_from EmptyString s'
           end
      else tokens_from (cur +:+ String c EmptyString) s'
  end.

Definition tokens (cls : string) : list string := tokens_from EmptyString cls.

Definition has_token (t cls : string) : bool :=
  existsb (String.eqb t) (tokens cls).

(** Class names written with letters, digits, underscores and ASCII
    whitespace only. *)
Fixpoint plain (s : string) : bool :=
  match s with
  | EmptyString => true
  | String c s' => (is_word_char c || is_ascii_whitespace c) && plain s'
  end.

Fixpoint all_word (w : string) : bool :=
  match w with
  | EmptyString => true
  | String c w' => is_word_char c && all_word w'
  end.

(** The characters of [s] up to the first whitespace. *)
Fixpoint first_token (s : string) : string :=
  match s with
  | EmptyString => EmptyString
  | String c s' =>
      if is_ascii_whitespace c then EmptyString
      else String c (first_token s')
  end.

End ClassName.

(** ** Rows and the row grouper *)

Record Row := mkRow { className : string; display : string }.

Definition POSTS_PER_PAGE : Z := 10.

(** [/\bpost\b/.test(tr.className || '')] *)
Definition is_post (tr : Row) : bool := ClassName.word_test "post" (className tr).

(** [/\bspace\b/.test(prev.className || '')] *)
Definition is_space (tr : Row) : bool := ClassName.word_test "space" (className tr).

(** The selector [tr.post]: the class list holds the token. *)
Definition has_class (t : string) (tr : Row) : bool :=
  ClassName.has_token t (className tr).

(** The body of the loop of [collectBlocks] at index [i]: a block holds
    references to rows, that is positions in [trs]. *)
Definition collect_step (trs : list Row) (blocks : list (list nat)) (i : nat)
  : list (list nat) :=
  match trs !! i with
  | None => blocks
  | Some tr =>
      if is_post tr then
        let block := [] in
        let block :=
          match i with
          | O => block                       (* trs[-1] is undefined *)
          | S p =>
              match trs !! p with
              | Some prev => if is_space prev then block ++ [p] else block
              | None => block
              end
          end in
        let block := block ++ [i] in
        blocks ++ [block]
      else blocks
  end.

Definition collectBlocks (trs : list Row) : list (list nat) :=
  fold_left (collect_step trs) (seq 0 (length trs)) [].

(** ** The pager *)

(** [tr.style.display = v] *)
Definition set_display (v : string) (tr : Row) : Row :=
  {| className := className tr; display := v |}.

(** The inner loop of [showBlocks]: every row of one block gets the same
    display value. *)
Definition show_block (visible : bool) (block : list nat) (dom : list Row)
  : list Row :=
  fold_left
    (fun d tr => alter (set_display (if visible then "" else "none")) tr d)
    block dom.

(** The outer loop, at index [i] with [blocks] still to visit. *)
Fixpoint show_loop (start end_ : Z) (i : nat) (blocks : list (list nat))
    (dom : list Row) : list Row :=
  match blocks with
  | [] => dom
  | block :: rest =>
      let visible := (Z.of_nat i >=? start)%Z && (Z.of_nat i <? end_)%Z in
      show_loop start end_ (S i) rest (show_block visible block dom)
  end.

Definition showBlocks (blocks : list (list nat)) (pageIndex : Z)
    (dom : list Row) : list Row :=
  let start := (pageIndex * POSTS_PER_PAGE)%Z in
  let end_ := (start + POSTS_PER_PAGE)%Z in
  show_loop start end_ 0 blocks dom.

(** ** The controls widget *)

(** Decimal text of an integer, as a template literal prints it. *)
Definition number_text (z : Z) : string :=
  DecimalString.NilZero.string_of_int (Z.to_int z).

Definition page_text (shown total : Z) : string :=
  "Page " +:+ number_text shown +:+ " of " +:+ number_text total.

(** The state held by one widget: the two buttons, the indicator, and the
    variables its closures capture ([current], [totalPages], [onPage]). *)
Record Controls := mkControls {
  totalPages : Z;
  onPage : Z -> list Row -> list Row;
  prevDisabled : bool;
  nextDisabled : bool;
  indicator : string;
  current : Z
}.

(** A [tr] descendant of the posts table that the selector of the grouper,
    [:scope > tbody > tr, :scope > tr], leaves out: a row of a [thead] or
    [tfoot], or of a table nested in a cell.  [gap] rows of the grouper's
    list come before it in document order.  The script never writes to
    such a row. *)
Record Stray := mkStray {
  gap : nat;
  stray : Row
}.

(** A row as [querySelectorAll('tr.post')] returns it: row [i] of the
    grouper's list, or stray [k]. *)
Inductive PostRow := Listed (i : nat) | Unlisted (k : nat).

(** The part of the document the script reads and writes.  [rows] are the
    rows of the posts table that the selector of the grouper finds, in
    document order; [widget] is the element
    with id [sfc-paginator-controls]; [onPageCalls] records, in
    order, the arguments [onPage] has been invoked with; [scrollTimers]
    holds the delays of the scroll callbacks waiting in [setTimeout];
    [scrolledTo] is the row last scrolled into view. *)
Record Page := mkPage {
  rows : list Row;
  widget : option Controls;
  console : list string;
  onPageCalls : list Z;
  scrollTimers : list Z;
  scrolledTo : option PostRow
}.

Definition log (msg : string) (pg : Page) : Page :=
  {| rows := rows pg; widget := widget pg; console := console pg ++ [msg];
     onPageCalls := onPageCalls pg; scrollTimers := scrollTimers pg;
     scrolledTo := scrolledTo pg |}.

(** [createControls]: any widget already in the document is replaced; the
    Previous button starts disabled, the Next button is left as created. *)
Definition createControls (total : Z) (cb : Z -> list Row -> list Row)
    (pg : Page) : Page :=
  {| rows := rows pg;
     widget := Some {| totalPages := total; onPage := cb;
                       prevDisabled := true; nextDisabled := false;
                       indicator := "Page 1 of " +:+ number_text total;
                       current := 0 |};
     console := console pg;
     onPageCalls := onPageCalls pg;
     scrollTimers := scrollTimers pg;
     scrolledTo := scrolledTo pg |}.

(** [updateButtons], run by the closures of widget [c] whose [current] has
    just become [cur]. *)
Definition updateButtons (c : Controls) (cur : Z) (pg : Page) : Page :=
  {| rows := onPage c cur (rows pg);
     widget := Some {| totalPages := totalPages c; onPage := onPage c;
                       prevDisabled := (cur <=? 0)%Z;
                       nextDisabled := (cur >=? totalPages c - 1)%Z;
                       indicator := page_text (cur + 1) (totalPages c);
                       current := cur |};
     console := console pg;
     onPageCalls := onPageCalls pg ++ [cur];
     scrollTimers := scrollTimers pg;
     scrolledTo := scrolledTo pg |}.

(** The click listeners of the two buttons. *)
Definition prev_listener (c : Controls) (pg : Page) : Page :=
  if (current c >? 0)%Z then updateButtons c (current c - 1) pg else pg.

Definition next_listener (c : Controls) (pg : Page) : Page :=
  if (current c <? totalPages c - 1)%Z
  then updateButtons c (current c + 1) pg else pg.

(** A click reaches the listener only when the button is not disabled. *)
Definition clickPrev (pg : Page) : Page :=
  match widget pg with
  | Some c => if prevDisabled c then pg else prev_listener c pg
  | None => pg
  end.

Definition clickNext (pg : Page) : Page :=
  match widget pg with
  | Some c => if nextDisabled c then pg else next_listener c pg
  | None => pg
  end.

(** [Math.max(0, Math.min(totalPages - 1, n))] *)
Definition clamp_page (total n : Z) : Z := Z.max 0 (Z.min (total - 1) n).

(** The setter returned by [createControls]. *)
Definition setPage (n : Z) (pg : Page) : Page :=
  match widget pg with
  | Some c => updateButtons c (clamp_page (totalPages c) n) pg
  | None => pg
  end.

(** ** Pagination of the posts table *)

(** [Math.ceil(n / d)] on non-negative integers, [d] positive. *)
Definition ceil_div (n d : Z) : Z := (- ((- n) / d))%Z.

(** [postsTable.querySelectorAll('tr.post')]: every [tr] descendant of the
    table with the class [post], in document order, whether the grouper
    lists it or not.  Ahead of listed row [g] come the strays that have
    [g] listed rows before them. *)
Definition strays_at (strays : list Stray) (len g : nat) : list PostRow :=
  Unlisted
    <$> List.filter
          (fun k => match strays !! k with
                    | Some s =>
                        (Nat.min (gap s) len =? g)%nat
                        && has_class "post" (stray s)
                    | None => false
                    end)
          (seq 0 (length strays)).

Definition listed_at (dom : list Row) (g : nat) : list PostRow :=
  match dom !! g with
  | Some tr => if has_class "post" tr then [Listed g] else []
  | None => []
  end.

Definition tr_post (strays : list Stray) (dom : list Row) : list PostRow :=
  concat ((fun g => strays_at strays (length dom) g ++ listed_at dom g)
            <$> seq 0 (S (length dom))).

(** [tr.style.display] of such a row. *)
Definition post_display (strays : list Stray) (dom : list Row) (r : PostRow)
  : option string :=
  match r with
  | Listed i => display <$> dom !! i
  | Unlisted k => (fun s => display (stray s)) <$> strays !! k
  end.

(** The rows the delayed callback keeps: those matching [tr.post] whose
    display is not ['none']; it scrolls the last one into view. *)
Definition visible_posts (strays : list Stray) (dom : list Row)
  : list PostRow :=
  List.filter
    (fun r => match post_display strays dom r with
              | Some d => negb (String.eqb d "none")
              | None => false
              end)
    (tr_post strays dom).

Definition scroll_last_visible (strays : list Stray) (pg : Page) : Page :=
  match last (visible_posts strays (rows pg)) with
  | Some tr =>
      {| rows := rows pg; widget := widget pg; console := console pg;
         onPageCalls := onPageCalls pg; scrollTimers := scrollTimers pg;
         scrolledTo := Some tr |}
  | None => pg
  end.

(** [setTimeout(scroll, delay)] *)
Definition schedule_scroll (delay : Z) (pg : Page) : Page :=
  {| rows := rows pg; widget := widget pg; console := console pg;
     onPageCalls := onPageCalls pg;
     scrollTimers := scrollTimers pg ++ [delay];
     scrolledTo := scrolledTo pg |}.

(** The oldest waiting scroll callback fires; [strays] are the rows it
    finds in the table besides those of the grouper's list. *)
Definition fire_scroll (strays : list Stray) (pg : Page) : Page :=
  match scrollTimers pg with
  | [] => pg
  | _ :: waiting =>
      scroll_last_visible strays
        {| rows := rows pg; widget := widget pg; console := console pg;
           onPageCalls := onPageCalls pg; scrollTimers := waiting;
           scrolledTo := scrolledTo pg |}
  end.

(** [paginate]: the scroll itself runs 50 ms later. *)
Definition paginate (pg : Page) : Page :=
  let blocks := collectBlocks (rows pg) in
  if (length blocks =? 0)%nat then
    log "no post blocks found — nothing to paginate" pg
  else if (Z.of_nat (length blocks) <=? POSTS_PER_PAGE)%Z then
    log "post count <= page size — skipping pagination" pg
  else
    let total := ceil_div (Z.of_nat (length blocks)) POSTS_PER_PAGE in
    let pg := createControls total (fun page => showBlocks blocks page) pg in
    let pg := setPage (total - 1) pg in
    schedule_scroll 50 pg.

(** ** The mutation watcher *)

Module Watcher.

Inductive PromiseState := Pending | Fulfilled | Rejected.

(** The variables of one call of [waitForPostsToStabilize], the state of
    its observer and of its promise.  [disconnects] and [resolveCalls]
    count the calls of [mo.disconnect()] and [resolve()];
    [timerPending] tells whether a [setTimeout(check, 100)] is waiting. *)
Record State := mkState {
  start : Z;
  timeout : Z;
  lastCount : Z;
  stableSince : Z;
  observing : bool;
  disconnects : nat;
  promise : PromiseState;
  resolveCalls : nat;
  timerPending : bool
}.

Definition disconnect (s : State) : State :=
  {| start := start s; timeout := timeout s; lastCount := lastCount s;
     stableSince := stableSince s; observing := false;
     disconnects := S (disconnects s); promise := promise s;
     resolveCalls := resolveCalls s; timerPending := timerPending s |}.

(** Resolving a promise that is already settled changes nothing. *)
Definition resolve (s : State) : State :=
  {| start := start s; timeout := timeout s; lastCount := lastCount s;
     stableSince := stableSince s; observing := observing s;
     disconnects := disconnects s;
     promise := match promise s with Pending => Fulfilled | p => p end;
     resolveCalls := S (resolveCalls s); timerPending := timerPending s |}.

Definition set_timer (b : bool) (s : State) : State :=
  {| start := start s; timeout := timeout s; lastCount := lastCount s;
     stableSince := stableSince s; observing := observing s;
     disconnects := disconnects s; promise := promise s;
     resolveCalls := resolveCalls s; timerPending := b |}.

(** [check]: [now1] and [now2] are the two readings of [Date.now()], the
    second one taken only when the first test fails. *)
Definition check (now1 now2 : Z) (s : State) : State :=
  if (now1 - stableSince s >? 300)%Z then resolve (disconnect s)
  else if (now2 - start s >? timeout s)%Z then resolve (disconnect s)
  else set_timer true s.

(** The observer callback, with the post count and the clock it reads. *)
Definition on_mutation (nowCount now : Z) (s : State) : State :=
  if negb (nowCount =? lastCount s)%Z then
    {| start := start s; timeout := timeout s; lastCount := nowCount;
       stableSince := now; observing := observing s;
       disconnects := disconnects s; promise := promise s;
       resolveCalls := resolveCalls s; timerPending := timerPending s |}
  else s.

(** The executor of the promise: [t0] and [t1] are the readings stored in
    [start] and [stableSince], [count0] the first post count; [timeout]
    is 5000 when the caller passes none; the first [check] runs at once
    with readings [t2] and [t3]. *)
Definition waitForPostsToStabilize (count0 : Z) (timeout : option Z)
    (t0 t1 t2 t3 : Z) : State :=
  check t2 t3
    {| start := t0; timeout := default 5000%Z timeout; lastCount := count0;
       stableSince := t1; observing := true; disconnects := 0;
       promise := Pending; resolveCalls := 0; timerPending := false |}.

(** What the event loop can deliver afterwards: a batch of mutations, to
    a connected observer only, or the pending timer. *)
Inductive Event :=
| Mutation (nowCount now : Z)
| Timer (now1 now2 : Z).

Definition step (s : State) (e : Event) : State :=
  match e with
  | Mutation nowCount now =>
      if observing s then on_mutation nowCount now s else s
  | Timer now1 now2 =>
      if timerPending s then check now1 now2 (set_timer false s) else s
  end.

Definition run (s : State) (trace : list Event) : State :=
  fold_left step trace s.

(** The clock never runs backwards, and a timer fires no earlier than
    100 ms after the reading that preceded its [setTimeout]. *)
Fixpoint well_timed (clock armed : Z) (trace : list Event) : Prop :=
  match trace with
  | [] => True
  | Mutation _ now :: rest =>
      (clock <= now)%Z /\ well_timed now armed rest
  | Timer now1 now2 :: rest =>
      (clock <= now1)%Z /\ (armed + 100 <= now1)%Z /\ (now1 <= now2)%Z
      /\ well_timed now2 now2 rest
  end.

Definition is_timer (e : Event) : bool :=
  match e with Timer _ _ => true | Mutation _ _ => false end.

Definition timer_count (trace : list Event) : nat :=
  length (List.filter is_timer trace).

(** The promise is pending: the observer is connected, one timer waits,
    nothing has been torn down yet. *)
Definition waiting (s : State) : Prop :=
  promise s = Pending /\ observing s = true /\ timerPending s = true
  /\ disconnects s = 0%nat /\ resolveCalls s = 0%nat.

(** The promise is fulfilled: the observer was disconnected, once, and
    no timer is left. *)
Definition settled (s : State) : Prop :=
  promise s = Fulfilled /\ observing s = false /\ timerPending s = false
  /\ disconnects s = 1%nat /\ resolveCalls s = 1%nat.

Definition quiet_or_timed_out (s : State) (now1 now2 : Z) : Prop :=
  (now1 - stableSince s > 300)%Z \/ (now2 - start s > timeout s)%Z.

(** An event that leaves the count at [n]: a timer, or a batch of
    mutations after which [n] post rows are counted. *)
Definition count_is (n : Z) (e : Event) : Prop :=
  match e with
  | Mutation nowCount _ => nowCount = n
  | Timer _ _ => True
  end.

End Watcher.

(** ** The one-shot guard of the script *)

Module Script.

Inductive ReadyState := Loading | Interactive | Complete.

(** The callbacks the script hands to the host. *)
Inductive Task := Init.

(** The flag [window.__sfcPaginatorInitialized]; [timeouts] are
    the pending [setTimeout] calls with their delays, [domContentLoaded]
    the listeners registered on the document. *)
Record Window := mkWindow {
  __sfcPaginatorInitialized : bool;
  readyState : ReadyState;
  timeouts : list (Z * Task);
  domContentLoaded : list Task
}.

(** One evaluation of the whole script. *)
Definition script (w : Window) : Window :=
  if __sfcPaginatorInitialized w then w
  else
    match readyState w with
    | Complete | Interactive =>
        {| __sfcPaginatorInitialized := true; readyState := readyState w;
           timeouts := timeouts w ++ [(0%Z, Init)];
           domContentLoaded := domContentLoaded w |}
    | Loading =>
        {| __sfcPaginatorInitialized := true; readyState := readyState w;
           timeouts := timeouts w;
           domContentLoaded := domContentLoaded w ++ [Init] |}
    end.

(** How many runs of [init] are scheduled. *)
Definition scheduled_inits (w : Window) : nat :=
  length (timeouts w) + length (domContentLoaded w).

End Script.

(** ** Lifetimes *)

(** What can happen to a widget once it is built: a click on either button,
    or a call of the setter that [createControls] returned. *)
Inductive WidgetOp := ClickPrev | ClickNext | SetPage (n : Z).

Definition widget_step (pg : Page) (op : WidgetOp) : Page :=
  match op with
  | ClickPrev => clickPrev pg
  | ClickNext => clickNext pg
  | SetPage n => setPage n pg
  end.

Definition widget_run (ops : list WidgetOp) (pg : Page) : Page :=
  fold_left widget_step ops pg.

(** What can happen to the page once the posts have settled: the paginator
    runs, the user clicks, the delayed scroll fires. *)
Inductive Action :=
| Paginate
| UserPrev
| UserNext
| ScrollTimer (strays : list Stray).

Definition act (pg : Page) (a : Action) : Page :=
  match a with
  | Paginate => paginate pg
  | UserPrev => clickPrev pg
  | UserNext => clickNext pg
  | ScrollTimer strays => fire_scroll strays pg
  end.

(** ** Vocabulary of the specification *)

Definition row_at (trs : list Row) (p : Row -> bool) (i : nat) : bool :=
  match trs !! i with
  | Some tr => p tr
  | None => false
  end.

(** Positions of the rows satisfying [p], in document order. *)
Definition positions (p : Row -> bool) (trs : list Row) : list nat :=
  List.filter (row_at trs p) (seq 0 (length trs)).

(** The display value of row [r], if [r] is a row of the document. *)
Definition display_at (dom : list Row) (r : nat) : option string :=
  display <$> dom !! r.

(** A unit is on page [pageIndex] of size [pageSize]. *)
Definition on_page (pageIndex pageSize : Z) (unitIndex : nat) : Prop :=
  (pageIndex * pageSize <= Z.of_nat unitIndex
   /\ Z.of_nat unitIndex < (pageIndex + 1) * pageSize)%Z.

Definition unit_shown (dom : list Row) (block : list nat) : Prop :=
  forall r, r ∈ block -> display_at dom r = Some "".

Definition unit_hidden (dom : list Row) (block : list nat) : Prop :=
  forall r, r ∈ block -> display_at dom r = Some "none".

(** A unit counts as visible when none of its rows is hidden, the test the
    script itself applies to rows before scrolling. *)
Definition unit_visible (dom : list Row) (block : list nat) : bool :=
  forallb
    (fun r => match dom !! r with
              | Some tr => negb (String.eqb (display tr) "none")
              | None => false
              end)
    block.

Definition visible_units (dom : list Row) (blocks : list (list nat)) : nat :=
  length (List.filter (unit_visible dom) blocks).

(** The row grouper as the specification words it, on class tokens: one
    unit per post row in document order, the post row closing its unit; a
    spacer row is in a unit exactly when it comes right before the unit's
    post row; every other row is in no unit. *)
Definition grouper_one_unit_per_post (trs : list Row) : Prop :=
  length (collectBlocks trs) = length (positions (has_class "post") trs)
  /\ forall k i, positions (has_class "post") trs !! k = Some i ->
       exists b, collectBlocks trs !! k = Some b /\ last b = Some i.

Definition grouper_spacer_iff (trs : list Row) : Prop :=
  forall k b i j, collectBlocks trs !! k = Some b -> last b = Some i ->
    row_at trs (has_class "space") j = true ->
    (j ∈ b <-> S j = i).

Definition grouper_others_excluded (trs : list Row) : Prop :=
  forall k b j, collectBlocks trs !! k = Some b ->
    row_at trs (has_class "post") j = false ->
    row_at trs (has_class "space") j = false ->
    j ∉ b.

Definition grouper_claim (trs : list Row) : Prop :=
  grouper_one_unit_per_post trs /\ grouper_spacer_iff trs
  /\ grouper_others_excluded trs.

(** The two tests of the grouper agree with class-token membership on a
    row. *)
Definition tests_agree (tr : Row) : Prop :=
  is_post tr = has_class "post" tr /\ is_space tr = has_class "space" tr.

(** The pager as the specification words it. *)
Definition pager_claim (blocks : list (list nat)) (pageIndex : Z)
    (dom : list Row) : Prop :=
  forall j b, blocks !! j = Some b ->
    (unit_shown (showBlocks blocks pageIndex dom) b
       <-> on_page pageIndex POSTS_PER_PAGE j)
    /\ (~ on_page pageIndex POSTS_PER_PAGE j ->
        unit_hidden (showBlocks blocks pageIndex dom) b).

(** The widget invariant of the specification. *)
Definition buttons_consistent (c : Controls) : Prop :=
  (prevDisabled c = true <-> current c = 0%Z)
  /\ (nextDisabled c = true <-> current c = (totalPages c - 1)%Z).


(** ** Auxiliary definitions and sample data *)

(** The block the grouper builds for a post row at position [i]. *)
Definition unit_of (trs : list Row) (i : nat) : list nat :=
  match i with
  | O => []
  | S p => if row_at trs is_space p then [p] else []
  end ++ [i].

(** A small table: a spacer before the first post only, a heading row
    and a trailing spacer that belong to no unit. *)
Definition sample_rows : list Row :=
  [mkRow "space" ""; mkRow "post odd" ""; mkRow "head" "";
   mkRow "post" "none"; mkRow "space" ""].

(** A row with both classes followed by a post row, then a row whose only
    class merely starts with [post]. *)
Definition mixed_rows : list Row :=
  [mkRow "post space" ""; mkRow "post" ""; mkRow "post-it" ""].

(** [visible ? '' : 'none'] *)
Definition display_value (visible : bool) : string :=
  if visible then "" else "none".

(** [i >= start && i < end] *)
Definition page_visible (start end_ : Z) (i : nat) : bool :=
  (Z.of_nat i >=? start)%Z && (Z.of_nat i <? end_)%Z.

(** The decision taken by the last block of [blocks] that holds row [r],
    the first of them having index [i]. *)
Fixpoint last_write (start end_ : Z) (i : nat) (blocks : list (list nat))
    (r : nat) : option bool :=
  match blocks with
  | [] => None
  | b :: rest =>
      match last_write start end_ (S i) rest r with
      | Some v => Some v
      | None =>
          if bool_decide (r ∈ b) then Some (page_visible start end_ i)
          else None
      end
  end.

Definition twelve_posts : list Row := replicate 12 (mkRow "post" "").

(** Eleven post rows, the tenth of which also carries the class [space]:
    the grouper puts it in its own unit 9 and, as the preceding spacer, in
    unit 10. *)
Definition shared_row_table : list Row :=
  replicate 9 (mkRow "post" "")
  ++ [mkRow "post space" ""; mkRow "post" ""].

Definition eight_posts : Page :=
  mkPage (replicate 8 (mkRow "post" "")) None [] [] [] None.

Definition twenty_five_posts : Page :=
  mkPage (replicate 25 (mkRow "post" "")) None [] [] [] None.



(** The widget shows a page of [total] and its buttons are consistent. *)
Definition widget_ok (total : Z) (pg : Page) : Prop :=
  exists c, widget pg = Some c /\ totalPages c = total
            /\ (0 <= current c <= total - 1)%Z /\ buttons_consistent c.


(** Every widget of the page was installed by [paginate]: its callback is
    [showBlocks] on some block list. *)
Definition callback_is_pager (pg : Page) : Prop :=
  match widget pg with
  | Some c => exists blocks, onPage c = showBlocks blocks
  | None => True
  end.

(** What one action can have done to the rows.  Either nothing: no
    callback ran and the rows are as before.  Or the pager wrote: the
    widget now on the page pages through [blocks], its callback ran once,
    with the page the widget is now on, and the rows are what that one
    call of [showBlocks] made of the rows before. *)
Definition rows_kept (before after : Page) : Prop :=
  onPageCalls after = onPageCalls before /\ rows after = rows before.

Definition pager_wrote (blocks : list (list nat)) (before after : Page)
  : Prop :=
  exists c, widget after = Some c /\ onPage c = showBlocks blocks
    /\ onPageCalls after = onPageCalls before ++ [current c]
    /\ rows after = showBlocks blocks (current c) (rows before).

(** The blocks an action can page through: those [paginate] collects from
    the rows it finds, those of the widget a click lands on; the delayed
    scroll has none. *)
Definition blocks_of (pg : Page) (a : Action) (blocks : list (list nat))
  : Prop :=
  match a with
  | Paginate => blocks = collectBlocks (rows pg)
  | UserPrev | UserNext =>
      exists c, widget pg = Some c /\ onPage c = showBlocks blocks
  | ScrollTimer _ => False
  end.

(** The scenario of 25 posts as the specification words it, post and
    spacer rows being those whose class list holds the token. *)
Definition scenario_claim : Prop :=
  forall pg : Page,
    length (positions (has_class "post") (rows pg)) = 25%nat ->
    Forall (fun tr => has_class "space" tr = false) (rows pg) ->
    let blocks := collectBlocks (rows pg) in
    length blocks = 25%nat
    /\ (exists c, widget (paginate pg) = Some c
          /\ totalPages c = 3%Z /\ current c = 2%Z)
    /\ forall j b, blocks !! j = Some b ->
         ((20 <= j)%nat -> unit_shown (rows (paginate pg)) b)
         /\ ((j < 20)%nat -> unit_hidden (rows (paginate pg)) b).

(** 25 post rows followed by 6 rows whose class [post-it] only starts
    with [post]; 25 post rows that also carry the class [space-x]. *)
Definition post_it_table : Page :=
  mkPage (replicate 25 (mkRow "post" "") ++ replicate 6 (mkRow "post-it" ""))
    None [] [] [] None.

Definition space_x_table : Page :=
  mkPage (replicate 25 (mkRow "post space-x" "")) None [] [] [] None.

Definition blank_page : Page := mkPage [] None [] [] [] None.

Definition no_callback : Z -> list Row -> list Row := fun _ dom => dom.

Definition quiet_trace : list Watcher.Event :=
  [Watcher.Timer 100 100; Watcher.Mutation 5 150; Watcher.Timer 200 201;
   Watcher.Timer 305 305].

(** ** The expand link *)

Module SeeAll.

(** The text of an anchor is a JavaScript string, that is a sequence of
    UTF-16 code units; [code_units] gives those of an ASCII literal. *)
Definition code_units (s : string) : list N :=
  N_of_ascii <$> list_ascii_of_string s.

(** White space and line terminators: what [\s] matches and what
    [String.prototype.trim] removes. *)
Definition is_white_space (c : N) : bool :=
  ((9 <=? c) && (c <=? 13) || (c =? 32) || (c =? 160) || (c =? 5760)
   || (8192 <=? c) && (c <=? 8202) || (c =? 8232) || (c =? 8233)
   || (c =? 8239) || (c =? 8287) || (c =? 12288) || (c =? 65279))%N.

(** [\d] *)
Definition is_digit (c : N) : bool := ((48 <=? c) && (c <=? 57))%N.

Definition ascii_upper (c : N) : N :=
  if ((97 <=? c) && (c <=? 122))%N then (c - 32)%N else c.

(** A code unit against an ASCII pattern character under the [i] flag:
    beyond the two cases of a letter nothing else matches it. *)
Definition same_letter (c p : N) : bool :=
  (ascii_upper c =? ascii_upper p)%N.

Fixpoint drop_while (f : N -> bool) (s : list N) : list N :=
  match s with
  | [] => []
  | c :: s' => if f c then drop_while f s' else s
  end.

(** [s.trim()] *)
Definition trim (s : list N) : list N :=
  reverse (drop_while is_white_space
             (reverse (drop_while is_white_space s))).

(** [strip_by eqc pat s] is what follows the literal [pat] when [s]
    starts with it, characters compared by [eqc]. *)
Fixpoint strip_by (eqc : N -> N -> bool) (pat s : list N)
  : option (list N) :=
  match pat, s with
  | [], _ => Some s
  | p :: pat', c :: s' => if eqc c p then strip_by eqc pat' s' else None
  | _ :: _, [] => None
  end.

(** A pattern without anchors is tried at every position. *)
Fixpoint search (here : list N -> bool) (s : list N) : bool :=
  here s
  || match s with
     | [] => false
     | _ :: s' => search here s'
     end.

(** [/See all \d+ posts/i] at the head of [s]: the digits are taken
    greedily, the character after them must be the space of [" posts"]. *)
Definition see_all_here (s : list N) : bool :=
  match strip_by same_letter (code_units "See all ") s with
  | Some (d :: rest) =>
      is_digit d
      && match strip_by same_letter (code_units " posts")
                 (drop_while is_digit rest) with
         | Some _ => true
         | None => false
         end
  | _ => false
  end.

(** [/See all \d+ posts/i.test(s)] *)
Definition see_all_test (s : list N) : bool := search see_all_here s.

(** [/showAllPosts\s*\(/] at the head of [s]. *)
Definition show_all_here (s : list N) : bool :=
  match strip_by N.eqb (code_units "showAllPosts") s with
  | Some rest =>
      match drop_while is_white_space rest with
      | c :: _ => (c =? 40)%N
      | [] => false
      end
  | None => false
  end.

(** [/showAllPosts\s*\(/.test(s)] *)
Definition show_all_test (s : list N) : bool := search show_all_here s.

(** An [<a>] element: its text and its [onclick] attribute, if any. *)
Record Anchor := mkAnchor {
  textContent : list N;
  onclick : option (list N)
}.

(** The loop of [findSeeAllLink] over the anchors still to visit, the
    first of them being anchor number [i]. *)
Fixpoint find_from (i : nat) (anchors : list Anchor) : option nat :=
  match anchors with
  | [] => None
  | a :: rest =>
      let text := trim (textContent a) in
      if see_all_test text then Some i
      else
        let onclick := default [] (onclick a) in
        if show_all_test onclick then Some i
        else find_from (S i) rest
  end.

(** [findSeeAllLink]: [postsTable] is the list of the anchors inside the
    table, in document order, or [None] when there is no table; the
    result refers to an anchor by its position. *)
Definition findSeeAllLink (postsTable : option (list Anchor)) : option nat :=
  match postsTable with
  | None => None
  | Some anchors => find_from 0 anchors
  end.

(** A match of [/See all \d+ posts/i]. *)
Definition see_all_match (m : list N) : Prop :=
  exists a ds b,
    m = a ++ ds ++ b
    /\ Forall2 (fun c p => same_letter c p = true) a (code_units "See all ")
    /\ ds <> [] /\ Forall (fun d => is_digit d = true) ds
    /\ Forall2 (fun c p => same_letter c p = true) b (code_units " posts").

(** A match of [/showAllPosts\s*\(/]. *)
Definition show_all_match (m : list N) : Prop :=
  exists ws,
    m = code_units "showAllPosts" ++ ws ++ [40%N]
    /\ Forall (fun c => is_white_space c = true) ws.

(** The anchor passes one of the two tests of the loop, its text taken
    as it is. *)
Definition is_expand_link (a : Anchor) : bool :=
  see_all_test (textContent a) || show_all_test (default [] (onclick a)).

End SeeAll.

(** ** The orchestrator *)

Module Orchestrator.

(** What [init] has set going on one page: the page itself, the rows of
    the posts table that the grouper does not list, as the host last left
    them, the anchors whose [click()] it has called, the watcher of its
    [runPagination], if any, and how many times [paginate] has been
    called. *)
Record Session := mkSession {
  page : Page;
  strays : list Stray;
  clicked : list nat;
  watcher : option Watcher.State;
  paginations : nat
}.

(** The host page puts new rows in the posts table. *)
Definition set_rows (rows' : list Row) (pg : Page) : Page :=
  {| rows := rows'; widget := widget pg; console := console pg;
     onPageCalls := onPageCalls pg; scrollTimers := scrollTimers pg;
     scrolledTo := scrolledTo pg |}.

(** [postsTable.querySelectorAll('tr.post').length]: every [tr.post]
    descendant counts, listed by the grouper or not. *)
Definition post_count (others : list Stray) (trs : list Row) : Z :=
  Z.of_nat (length (tr_post others trs)).

Definition set_watcher (w : Watcher.State) (s : Session) : Session :=
  {| page := page s; strays := strays s; clicked := clicked s;
     watcher := Some w;
     paginations := paginations s |}.

(** What follows the [await] in [runPagination], run once the promise is
    fulfilled. *)
Definition resume (s : Session) : Session :=
  {| page := paginate (page s); strays := strays s; clicked := clicked s;
     watcher := watcher s; paginations := S (paginations s) |}.

(** [runPagination()]: the executor of the watcher runs at once, with the
    four clock readings it takes; the rest waits for the promise. *)
Definition runPagination (t0 t1 t2 t3 : Z) (s : Session) : Session :=
  let w := Watcher.waitForPostsToStabilize
             (post_count (strays s) (rows (page s))) None t0 t1 t2 t3 in
  match Watcher.promise w with
  | Watcher.Fulfilled => resume (set_watcher w s)
  | _ => set_watcher w s
  end.

(** [init].  [posts] are the anchors of [#posts], or [None] without such a
    table; [others] are the rows of the table that the grouper does not
    list; [host i trs others] is what the page does to the rows of the
    table when anchor [i] is clicked, and whether that throws: the [catch]
    only reads the [onclick] text and drops it, so either way the flow
    goes on. *)
Definition init
    (host : nat -> list Row -> list Stray -> list Row * list Stray * bool)
    (posts : option (list SeeAll.Anchor)) (others : list Stray)
    (t0 t1 t2 t3 : Z) (pg : Page)
  : Session :=
  match posts with
  | None =>
      mkSession (log "no #posts table found on page" pg) others [] None 0
  | Some _ =>
      match SeeAll.findSeeAllLink posts with
      | Some seeAll =>
          let pg :=
            log "See all link found — triggering it and waiting for posts to load"
              pg in
          let clicked := host seeAll (rows pg) others in
          runPagination t0 t1 t2 t3
            (mkSession (set_rows (fst (fst clicked)) pg) (snd (fst clicked))
               [seeAll] None 0)
      | None => runPagination t0 t1 t2 t3 (mkSession pg others [] None 0)
      end
  end.

(** What can happen afterwards: the host changes the rows, which a
    connected observer is told about; the poll timer of the watcher
    fires; the user clicks a button; the delayed scroll fires. *)
Inductive Event :=
| HostRows (rows' : list Row) (others : list Stray) (now : Z)
| Timer (now1 now2 : Z)
| PrevClick
| NextClick
| ScrollFire.

Definition on_page_only (f : Page -> Page) (s : Session) : Session :=
  {| page := f (page s); strays := strays s; clicked := clicked s;
     watcher := watcher s; paginations := paginations s |}.

Definition step (s : Session) (e : Event) : Session :=
  match e with
  | HostRows rows' others now =>
      {| page := set_rows rows' (page s); strays := others;
         clicked := clicked s;
         watcher :=
           (fun w =>
              Watcher.step w (Watcher.Mutation (post_count others rows') now))
             <$> watcher s;
         paginations := paginations s |}
  | Timer now1 now2 =>
      match watcher s with
      | Some w =>
          let w' := Watcher.step w (Watcher.Timer now1 now2) in
          match Watcher.promise w, Watcher.promise w' with
          | Watcher.Pending, Watcher.Fulfilled => resume (set_watcher w' s)
          | _, _ => set_watcher w' s
          end
      | None => s
      end
  | PrevClick => on_page_only clickPrev s
  | NextClick => on_page_only clickNext s
  | ScrollFire => on_page_only (fire_scroll (strays s)) s
  end.

Definition run (s : Session) (trace : list Event) : Session :=
  fold_left step trace s.

(** What the watcher sees of an event. *)
Definition watcher_event (e : Event) : option Watcher.Event :=
  match e with
  | HostRows rows' others now =>
      Some (Watcher.Mutation (post_count others rows') now)
  | Timer now1 now2 => Some (Watcher.Timer now1 now2)
  | _ => None
  end.

(** A session is on hold while its watcher waits and [paginate] has not
    been called; it is through once the watcher has settled and [paginate]
    has been called, once. *)
Definition on_hold (s : Session) : Prop :=
  exists w, watcher s = Some w /\ Watcher.waiting w
            /\ paginations s = 0%nat.

Definition through (s : Session) : Prop :=
  exists w, watcher s = Some w /\ Watcher.settled w
            /\ paginations s = 1%nat.

(** The script has left the page as the host made it: no widget, no call
    of a page callback, no line on the console beyond those of [con], and
    the watcher holds the number of [tr.post] rows of the table. *)
Definition untouched (calls : list Z) (con : list string) (s : Session)
  : Prop :=
  widget (page s) = None /\ onPageCalls (page s) = calls
  /\ console (page s) = con
  /\ forall w, watcher s = Some w ->
        Watcher.lastCount w = post_count (strays s) (rows (page s)).

(** The table as [init] hands it to the watcher: after the click, if
    there is a link to click. *)
Definition after_click
    (host : nat -> list Row -> list Stray -> list Row * list Stray * bool)
    (posts : option (list SeeAll.Anchor)) (others : list Stray) (pg : Page)
  : Page :=
  match SeeAll.findSeeAllLink posts with
  | Some seeAll =>
      set_rows (fst (fst (host seeAll (rows pg) others)))
        (log "See all link found — triggering it and waiting for posts to load"
           pg)
  | None => pg
  end.

Definition strays_after_click
    (host : nat -> list Row -> list Stray -> list Row * list Stray * bool)
    (posts : option (list SeeAll.Anchor)) (others : list Stray) (pg : Page)
  : list Stray :=
  match SeeAll.findSeeAllLink posts with
  | Some seeAll => snd (fst (host seeAll (rows pg) others))
  | None => others
  end.

(** A thread whose second anchor is the expand link, on a host that
    answers the click by putting [loaded] in the table. *)
Definition sample_anchors : list SeeAll.Anchor :=
  [SeeAll.mkAnchor (SeeAll.code_units "Reply") None;
   SeeAll.mkAnchor (SeeAll.code_units "See all 12 posts...") None].

Definition loading_host (loaded : list Row)
  : nat -> list Row -> list Stray -> list Row * list Stray * bool :=
  fun _ _ others => (loaded, others, false).

(** A trace of [n] polls, 100 ms apart, from time [from]. *)
Definition polls (from : Z) (n : nat) : list Event :=
  (fun k => Timer (from + 100 * (Z.of_nat k + 1)) (from + 100 * (Z.of_nat k + 1)))
    <$> seq 0 n.

End Orchestrator.

(** ** Loading the script *)

Module Loader.

(** The window of the script, whether [DOMContentLoaded] has been
    dispatched, and how many times [init] has run. *)
Record Host := mkHost {
  window : Script.Window;
  contentLoaded : bool;
  initRuns : nat
}.

(** The script is evaluated (again); the oldest pending timeout fires;
    the document finishes parsing; [DOMContentLoaded] is dispatched, once,
    after that; the page finishes loading. *)
Inductive Event :=
| Inject
| TimeoutFires
| BecomeInteractive
| ContentLoaded
| BecomeComplete.

Definition set_ready (r : Script.ReadyState) (w : Script.Window)
  : Script.Window :=
  {| Script.__sfcPaginatorInitialized := Script.__sfcPaginatorInitialized w;
     Script.readyState := r;
     Script.timeouts := Script.timeouts w;
     Script.domContentLoaded := Script.domContentLoaded w |}.

Definition pop_timeout (w : Script.Window) : Script.Window :=
  {| Script.__sfcPaginatorInitialized := Script.__sfcPaginatorInitialized w;
     Script.readyState := Script.readyState w;
     Script.timeouts := tail (Script.timeouts w);
     Script.domContentLoaded := Script.domContentLoaded w |}.

Definition step (h : Host) (e : Event) : Host :=
  match e with
  | Inject =>
      {| window := Script.script (window h);
         contentLoaded := contentLoaded h; initRuns := initRuns h |}
  | TimeoutFires =>
      match Script.timeouts (window h) with
      | [] => h
      | (_, Script.Init) :: _ =>
          {| window := pop_timeout (window h);
             contentLoaded := contentLoaded h;
             initRuns := S (initRuns h) |}
      end
  | BecomeInteractive =>
      match Script.readyState (window h) with
      | Script.Loading =>
          {| window := set_ready Script.Interactive (window h);
             contentLoaded := contentLoaded h; initRuns := initRuns h |}
      | _ => h
      end
  | ContentLoaded =>
      match Script.readyState (window h), contentLoaded h with
      | Script.Interactive, false =>
          {| window := window h; contentLoaded := true;
             initRuns :=
               initRuns h + length (Script.domContentLoaded (window h)) |}
      | _, _ => h
      end
  | BecomeComplete =>
      match Script.readyState (window h), contentLoaded h with
      | Script.Interactive, true =>
          {| window := set_ready Script.Complete (window h);
             contentLoaded := contentLoaded h; initRuns := initRuns h |}
      | _, _ => h
      end
  end.

Definition run (h : Host) (trace : list Event) : Host :=
  fold_left step trace h.

Definition is_inject (e : Event) : bool :=
  match e with Inject => true | _ => false end.

(** A page on which the script has not been evaluated yet; a document
    still loading has not dispatched [DOMContentLoaded]. *)
Definition fresh (r : Script.ReadyState) (loaded : bool) : Host :=
  mkHost (Script.mkWindow false r [] [])
    (match r with Script.Loading => false | _ => loaded end) 0.

(** The runs of [init] still to come: the pending timeouts, and the
    listeners as long as [DOMContentLoaded] has not been dispatched. *)
Definition pending_inits (h : Host) : nat :=
  length (Script.timeouts (window h))
  + (if contentLoaded h then 0
     else length (Script.domContentLoaded (window h))).

End Loader.

(** ** Further vocabulary *)

(** The widget built by [createControls total cb] on [base] and the page
    agree: the page is within range, the indicator names it, the callback
    log has grown by [calls], whose last entry is the page, and the rows
    are what replaying the callback on [calls] gives. *)
Definition widget_synced (total : Z) (cb : Z -> list Row -> list Row)
    (base pg : Page) : Prop :=
  exists c calls,
    widget pg = Some c /\ totalPages c = total /\ onPage c = cb
    /\ (0 <= current c <= total - 1)%Z
    /\ indicator c = page_text (current c + 1) total
    /\ onPageCalls pg = onPageCalls base ++ calls
    /\ rows pg = fold_left (fun d p => cb p d) calls (rows base)
    /\ match last calls with
       | Some p => p = current c
       | None => current c = 0%Z
       end.

(** * Properties *)

Example collect_demo :
  collectBlocks [mkRow "space" ""; mkRow "post odd" ""; mkRow "head" "";
                 mkRow "post" ""; mkRow "space" ""]
  = [[0; 1]; [3]]%nat.
Proof. reflexivity. Qed.

Example number_text_demo :
  number_text 0 = "0" /\ number_text 12 = "12"
  /\ page_text 3 3 = "Page 3 of 3".
Proof. repeat split; reflexivity. Qed.

Example word_test_hyphen : ClassName.word_test "post" "post-header" = true
  /\ ClassName.has_token "post" "post-header" = false
  /\ ClassName.word_test "post" "posts" = false
  /\ ClassName.word_test "post" "a post" = true
  /\ ClassName.has_token "post" "a  post" = true.
Proof. repeat split; reflexivity. Qed.

(** ** The row grouper *)

Lemma collect_step_eq trs blocks i :
  collect_step trs blocks i
  = blocks ++ (if row_at trs is_post i then [unit_of trs i] else []).
Proof.
  unfold collect_step, unit_of, row_at.
  destruct (trs !! i) as [tr|] eqn:Hi; [|by rewrite app_nil_r].
  destruct (is_post tr); [|by rewrite app_nil_r].
  destruct i as [|p]; [reflexivity|].
  destruct (trs !! p) as [prev|]; [|reflexivity].
  destruct (is_space prev); reflexivity.
Qed.

Lemma fold_collect_step trs l acc :
  fold_left (collect_step trs) l acc
  = acc ++ map (unit_of trs) (List.filter (row_at trs is_post) l).
Proof.
  revert acc. induction l as [|i l IH]; intros acc; simpl.
  - by rewrite app_nil_r.
  - rewrite IH, collect_step_eq.
    destruct (row_at trs is_post i); simpl.
    + by rewrite <- app_assoc.
    + by rewrite app_nil_r.
Qed.

(** The loop of [collectBlocks] builds one block per row passing the post
    test, in document order. *)
Lemma collectBlocks_map trs :
  collectBlocks trs = map (unit_of trs) (positions is_post trs).
Proof. unfold collectBlocks, positions. by rewrite fold_collect_step. Qed.

Lemma collectBlocks_length trs :
  length (collectBlocks trs) = length (positions is_post trs).
Proof. by rewrite collectBlocks_map, length_map. Qed.

Lemma collectBlocks_lookup trs k :
  collectBlocks trs !! k = unit_of trs <$> positions is_post trs !! k.
Proof. by rewrite collectBlocks_map, list_lookup_fmap. Qed.

Lemma unit_of_last trs i : last (unit_of trs i) = Some i.
Proof. unfold unit_of. by rewrite last_snoc. Qed.

Lemma elem_of_unit_of trs i j :
  j ∈ unit_of trs i <-> j = i \/ (S j = i /\ row_at trs is_space j = true).
Proof.
  unfold unit_of. destruct i as [|p]; simpl.
  - rewrite list_elem_of_singleton. split; [auto|]. intros [?|[? _]]; [done|lia].
  - destruct (row_at trs is_space p) eqn:Hp; simpl.
    + rewrite !elem_of_cons, elem_of_nil. split.
      * intros [->|[->|[]]]; auto.
      * intros [->|[[= ->] _]]; auto.
    + rewrite list_elem_of_singleton. split; [auto|].
      intros [?|[[= ->] ?]]; [done|congruence].
Qed.

Lemma positions_ext p q trs :
  (forall tr, tr ∈ trs -> p tr = q tr) -> positions p trs = positions q trs.
Proof.
  intros H. unfold positions. apply filter_ext_in. intros i _.
  unfold row_at. destruct (trs !! i) as [tr|] eqn:Hi; [|done].
  apply H. by apply list_elem_of_lookup_2 in Hi.
Qed.

Lemma elem_of_positions p trs i :
  i ∈ positions p trs <-> row_at trs p i = true.
Proof.
  unfold positions. rewrite list_elem_of_In, filter_In, in_seq. split; [tauto|].
  intros H. split; [|done]. unfold row_at in H.
  destruct (trs !! i) eqn:Hi; [|done]. apply lookup_lt_Some in Hi. lia.
Qed.

Lemma row_at_agree trs j :
  Forall tests_agree trs ->
  row_at trs is_post j = row_at trs (has_class "post") j
  /\ row_at trs is_space j = row_at trs (has_class "space") j.
Proof.
  intros H. unfold row_at. destruct (trs !! j) as [tr|] eqn:Hj; [|done].
  rewrite Forall_forall in H. apply H.
  by apply list_elem_of_lookup_2 in Hj.
Qed.

(** C1, as amended.  On every row sequence where the two word-boundary
    tests of the grouper agree with class-token membership, [collectBlocks]
    returns exactly one unit per row carrying the token [post], in document
    order, that row closing its unit; a row belongs to a unit exactly when
    it is the unit's post row, or it carries the token [space] and is the
    row immediately before the unit's post row; a row carrying neither
    token belongs to no unit. *)
Theorem collectBlocks_units (trs : list Row) :
  Forall tests_agree trs ->
  grouper_one_unit_per_post trs
  /\ (forall k b i j, collectBlocks trs !! k = Some b -> last b = Some i ->
        (j ∈ b <->
           j = i \/ (S j = i /\ row_at trs (has_class "space") j = true)))
  /\ grouper_others_excluded trs.
Proof.
  intros Hagree.
  assert (Hpos : positions is_post trs = positions (has_class "post") trs).
  { apply positions_ext. intros tr Htr.
    rewrite Forall_forall in Hagree. by destruct (Hagree tr Htr). }
  assert (Hunit : forall k b, collectBlocks trs !! k = Some b ->
            exists i, b = unit_of trs i
                      /\ row_at trs (has_class "post") i = true).
  { intros k b Hb. rewrite collectBlocks_lookup in Hb.
    destruct (positions is_post trs !! k) as [i|] eqn:Hk; [|done].
    injection Hb as <-. exists i. split; [done|].
    apply list_elem_of_lookup_2 in Hk. rewrite Hpos in Hk.
    by apply elem_of_positions. }
  split; [split|split].
  - by rewrite collectBlocks_length, Hpos.
  - intros k i Hk. exists (unit_of trs i). split; [|apply unit_of_last].
    by rewrite collectBlocks_lookup, Hpos, Hk.
  - intros k b i j Hb Hlast. destruct (Hunit k b Hb) as (i' & -> & _).
    rewrite unit_of_last in Hlast. injection Hlast as ->.
    rewrite elem_of_unit_of.
    by destruct (row_at_agree trs j Hagree) as [_ ->].
  - intros k b j Hb Hpost Hspace Hin. destruct (Hunit k b Hb) as (i & -> & Hi).
    apply elem_of_unit_of in Hin as [->|[_ Hs]]; [congruence|].
    destruct (row_at_agree trs j Hagree) as [_ Hag]. congruence.
Qed.

Lemma collectBlocks_units_witness :
  Forall tests_agree sample_rows
  /\ grouper_one_unit_per_post sample_rows
  /\ (forall k b i j, collectBlocks sample_rows !! k = Some b ->
        last b = Some i ->
        (j ∈ b <->
           j = i
           \/ (S j = i /\ row_at sample_rows (has_class "space") j = true)))
  /\ grouper_others_excluded sample_rows.
Proof.
  assert (H : Forall tests_agree sample_rows).
  { unfold sample_rows. repeat constructor. }
  split; [exact H | exact (collectBlocks_units sample_rows H)].
Defined.

(** C1 as stated fails on [mixed_rows]: three units come back although two
    rows carry the token [post], and row 0, which carries the token
    [space], sits in unit 0 without preceding that unit's post row. *)
Lemma grouper_claim_counterexample :
  ~ grouper_claim mixed_rows
  /\ ~ grouper_one_unit_per_post mixed_rows
  /\ ~ grouper_spacer_iff mixed_rows.
Proof.
  assert (Hcount : ~ grouper_one_unit_per_post mixed_rows).
  { intros [Hlen _]. discriminate Hlen. }
  assert (Hspacer : ~ grouper_spacer_iff mixed_rows).
  { intros Hiff.
    destruct (Hiff 0 [0] 0 0 eq_refl eq_refl eq_refl)%nat as [Hin _].
    specialize (Hin (list_elem_of_here _ _)). discriminate Hin. }
  split; [|done]. intros [H _]. by apply Hcount.
Qed.

Example mixed_rows_blocks :
  collectBlocks mixed_rows = [[0]; [0; 1]; [2]]%nat
  /\ positions (has_class "post") mixed_rows = [0; 1]%nat.
Proof. split; reflexivity. Qed.

(** ** The pager *)

Lemma set_display_twice v1 v2 tr :
  set_display v1 (set_display v2 tr) = set_display v1 tr.
Proof. reflexivity. Qed.

Lemma show_block_length v b dom : length (show_block v b dom) = length dom.
Proof.
  unfold show_block. revert dom.
  induction b as [|a b IH]; intros dom; simpl; [done|].
  by rewrite IH, length_alter.
Qed.

Lemma show_block_lookup v b dom r :
  show_block v b dom !! r
  = if bool_decide (r ∈ b) then set_display (display_value v) <$> dom !! r
    else dom !! r.
Proof.
  unfold show_block. fold (display_value v). revert dom.
  induction b as [|a b IH]; intros dom; simpl.
  - done.
  - rewrite IH. destruct (decide (r = a)) as [->|Hne].
    + rewrite list_lookup_alter_eq.
      rewrite (bool_decide_eq_true_2 (a ∈ a :: b)); [|apply list_elem_of_here].
      destruct (bool_decide (a ∈ b)); [|done].
      by destruct (dom !! a).
    + rewrite list_lookup_alter_ne by done.
      destruct (bool_decide_reflect (r ∈ b)) as [Hin|Hnin].
      * rewrite bool_decide_eq_true_2; [done|]. by apply list_elem_of_further.
      * rewrite bool_decide_eq_false_2; [done|].
        rewrite elem_of_cons. tauto.
Qed.

Lemma show_loop_length s e i blocks dom :
  length (show_loop s e i blocks dom) = length dom.
Proof.
  revert i dom. induction blocks as [|b rest IH]; intros i dom; simpl; [done|].
  by rewrite IH, show_block_length.
Qed.

(** Each row ends with the value of the last write that reached it. *)
Lemma show_loop_lookup s e i blocks dom r :
  show_loop s e i blocks dom !! r
  = match last_write s e i blocks r with
    | Some v => set_display (display_value v) <$> dom !! r
    | None => dom !! r
    end.
Proof.
  revert i dom. induction blocks as [|b rest IH]; intros i dom; simpl; [done|].
  rewrite IH, show_block_lookup. fold (page_visible s e i).
  destruct (last_write s e (S i) rest r) as [v|].
  - destruct (bool_decide (r ∈ b)); [|done]. by destruct (dom !! r).
  - by destruct (bool_decide (r ∈ b)).
Qed.

Lemma showBlocks_length blocks p dom :
  length (showBlocks blocks p dom) = length dom.
Proof. apply show_loop_length. Qed.

Lemma showBlocks_idempotent blocks p dom :
  showBlocks blocks p (showBlocks blocks p dom) = showBlocks blocks p dom.
Proof.
  apply list_eq. intros r. unfold showBlocks.
  rewrite (show_loop_lookup _ _ _ _ (show_loop _ _ _ _ _)).
  destruct (last_write _ _ 0 blocks r) as [v|] eqn:Hw; [|done].
  rewrite show_loop_lookup, Hw. by destruct (dom !! r).
Qed.

Lemma last_write_not_in s e i blocks r :
  r ∉ concat blocks -> last_write s e i blocks r = None.
Proof.
  revert i. induction blocks as [|b rest IH]; intros i Hr; simpl; [done|].
  simpl in Hr. rewrite elem_of_app in Hr.
  rewrite IH by tauto. rewrite bool_decide_eq_false_2; [done|tauto].
Qed.

Lemma last_write_unique s e i blocks j b r :
  NoDup (concat blocks) -> blocks !! j = Some b -> r ∈ b ->
  last_write s e i blocks r = Some (page_visible s e (i + j)).
Proof.
  revert i j. induction blocks as [|b0 rest IH]; intros i j Hnd Hj Hr; [done|].
  simpl in Hnd. apply NoDup_app in Hnd as (_ & Hdisj & Hnd). simpl.
  destruct j as [|j]; simpl in Hj.
  - injection Hj as ->. rewrite last_write_not_in by auto.
    rewrite bool_decide_eq_true_2 by done. by rewrite Nat.add_0_r.
  - rewrite (IH (S i) j Hnd Hj Hr). do 2 f_equal. lia.
Qed.

(** With no row shared between units, every row of unit [j] ends with the
    value decided for [j]. *)
Lemma showBlocks_display blocks p dom j b r :
  NoDup (concat blocks) -> blocks !! j = Some b -> r ∈ b ->
  (r < length dom)%nat ->
  display_at (showBlocks blocks p dom) r
  = Some (display_value
            (page_visible (p * POSTS_PER_PAGE)
               (p * POSTS_PER_PAGE + POSTS_PER_PAGE) j)).
Proof.
  intros Hnd Hj Hr Hlt. unfold display_at, showBlocks.
  rewrite show_loop_lookup, (last_write_unique _ _ _ _ j b r Hnd Hj Hr).
  destruct (lookup_lt_is_Some_2 dom r Hlt) as [tr ->]. done.
Qed.

Lemma page_visible_on_page p j :
  page_visible (p * POSTS_PER_PAGE) (p * POSTS_PER_PAGE + POSTS_PER_PAGE) j
  = true <-> on_page p POSTS_PER_PAGE j.
Proof.
  unfold page_visible, on_page, POSTS_PER_PAGE.
  rewrite andb_true_iff, Z.geb_le, Z.ltb_lt. lia.
Qed.

Lemma filter_length_indexed {A} (f : A -> bool) (g : nat -> bool) l k :
  (forall j x, l !! j = Some x -> f x = g (k + j)%nat) ->
  length (List.filter f l) = length (List.filter g (seq k (length l))).
Proof.
  revert k. induction l as [|x l IH]; intros k H; simpl; [done|].
  pose proof (H 0%nat x eq_refl) as H0. rewrite Nat.add_0_r in H0.
  rewrite <- H0.
  assert (Hrest : length (List.filter f l)
                  = length (List.filter g (seq (S k) (length l)))).
  { apply IH. intros j y Hj. rewrite (H (S j) y Hj). f_equal. lia. }
  destruct (f x); simpl; by rewrite Hrest.
Qed.

Lemma count_window s e n :
  (0 <= s <= e)%Z ->
  Z.of_nat (length (List.filter (page_visible s e) (seq 0 n)))
  = (Z.min e (Z.of_nat n) - Z.min s (Z.of_nat n))%Z.
Proof.
  intros Hse. induction n as [|n IH]; [simpl; lia|].
  rewrite seq_S, List.filter_app, length_app, Nat2Z.inj_add, IH. simpl.
  unfold page_visible.
  destruct (Z.geb_spec (Z.of_nat n) s), (Z.ltb_spec (Z.of_nat n) e);
    simpl; lia.
Qed.

Lemma ceil_div_bounds U :
  (10 * (ceil_div U POSTS_PER_PAGE - 1) < U <= 10 * ceil_div U POSTS_PER_PAGE)%Z.
Proof.
  unfold ceil_div, POSTS_PER_PAGE.
  pose proof (Z.div_mod (- U) 10 ltac:(lia)).
  pose proof (Z.mod_pos_bound (- U) 10 ltac:(lia)). lia.
Qed.

Section Disjoint_units.

Variables (blocks : list (list nat)) (dom : list Row) (p : Z).
Hypothesis Hnodup : NoDup (concat blocks).
Hypothesis Hnonempty : Forall (fun b => b <> []) blocks.
Hypothesis Hvalid : Forall (Forall (fun r => (r < length dom)%nat)) blocks.

Let start := (p * POSTS_PER_PAGE)%Z.
Let end_ := (p * POSTS_PER_PAGE + POSTS_PER_PAGE)%Z.

Lemma unit_rows_display j b r :
  blocks !! j = Some b -> r ∈ b ->
  display_at (showBlocks blocks p dom) r
  = Some (display_value (page_visible start end_ j)).
Proof.
  intros Hj Hr. apply (showBlocks_display _ _ _ j b); [done..|].
  rewrite Forall_forall in Hvalid.
  specialize (Hvalid b (list_elem_of_lookup_2 _ _ _ Hj)).
  rewrite Forall_forall in Hvalid. by apply Hvalid.
Qed.

Lemma unit_has_row j b : blocks !! j = Some b -> exists r, r ∈ b.
Proof.
  intros Hj. rewrite Forall_forall in Hnonempty.
  specialize (Hnonempty b (list_elem_of_lookup_2 _ _ _ Hj)).
  destruct b as [|r b]; [done|]. exists r. apply list_elem_of_here.
Qed.

Lemma unit_visible_page j b :
  blocks !! j = Some b ->
  unit_visible (showBlocks blocks p dom) b = page_visible start end_ j.
Proof.
  intros Hj. unfold unit_visible.
  destruct (page_visible start end_ j) eqn:Hv.
  - apply forallb_forall. intros r Hr%list_elem_of_In.
    pose proof (unit_rows_display j b r Hj Hr) as Hd.
    unfold display_at in Hd. rewrite Hv in Hd.
    destruct (showBlocks blocks p dom !! r) as [tr|]; [|done].
    injection Hd as ->. done.
  - destruct (unit_has_row j b Hj) as [r Hr].
    apply not_true_is_false. intros Hall.
    rewrite forallb_forall in Hall.
    specialize (Hall r (proj1 (list_elem_of_In _ _) Hr)).
    pose proof (unit_rows_display j b r Hj Hr) as Hd.
    unfold display_at in Hd. rewrite Hv in Hd.
    destruct (showBlocks blocks p dom !! r) as [tr|]; [|done].
    injection Hd as Hd. rewrite Hd in Hall. done.
Qed.

Lemma pager_claim_disjoint : pager_claim blocks p dom.
Proof.
  intros j b Hj. rewrite <- page_visible_on_page.
  change (p * POSTS_PER_PAGE + POSTS_PER_PAGE)%Z with end_.
  change (p * POSTS_PER_PAGE)%Z with start.
  split; [split|].
  - intros Hshown. destruct (unit_has_row j b Hj) as [r Hr].
    specialize (Hshown r Hr).
    rewrite (unit_rows_display j b r Hj Hr) in Hshown.
    destruct (page_visible start end_ j); [done|discriminate Hshown].
  - intros Hv r Hr. by rewrite (unit_rows_display j b r Hj Hr), Hv.
  - intros Hv r Hr. rewrite (unit_rows_display j b r Hj Hr).
    destruct (page_visible start end_ j); [by destruct Hv|reflexivity].
Qed.

Lemma visible_units_count :
  (0 <= p)%Z ->
  Z.of_nat (visible_units (showBlocks blocks p dom) blocks)
  = (Z.min end_ (Z.of_nat (length blocks))
     - Z.min start (Z.of_nat (length blocks)))%Z.
Proof.
  intros Hp. unfold visible_units.
  rewrite (filter_length_indexed _ (page_visible start end_) _ 0).
  - apply count_window. unfold start, end_, POSTS_PER_PAGE. lia.
  - intros j b Hj. by apply unit_visible_page.
Qed.

End Disjoint_units.

(** C2, as amended.  For every block list whose units are non-empty and
    share no row, and every page index [i], [showBlocks] leaves unit [j]
    with all its rows shown iff [i*10 <= j < (i+1)*10] and hides every
    other unit; with [totalPages = ceil(U/10)], the last page shows exactly
    [min(10, U - i*10)] units and every other page exactly 10. *)
Theorem showBlocks_pages (blocks : list (list nat)) (i : Z) (dom : list Row) :
  NoDup (concat blocks) ->
  Forall (fun b => b <> []) blocks ->
  Forall (Forall (fun r => (r < length dom)%nat)) blocks ->
  pager_claim blocks i dom
  /\ let U := Z.of_nat (length blocks) in
     let total := ceil_div U POSTS_PER_PAGE in
     (0 <= i < total)%Z ->
     (i = (total - 1)%Z ->
      Z.of_nat (visible_units (showBlocks blocks i dom) blocks)
      = Z.min 10 (U - i * 10))
     /\ (i <> (total - 1)%Z ->
         visible_units (showBlocks blocks i dom) blocks = 10%nat).
Proof.
  intros Hnd Hne Hvalid. split; [by apply pager_claim_disjoint|].
  intros U total Hi.
  pose proof (visible_units_count blocks dom i Hnd Hne Hvalid ltac:(lia)) as Hc.
  pose proof (ceil_div_bounds U) as Hb. fold total in Hb.
  unfold POSTS_PER_PAGE in Hc. fold U in Hc.
  split; intros Hlast; lia.
Qed.

Lemma showBlocks_pages_witness :
  let blocks := collectBlocks twelve_posts in
  NoDup (concat blocks)
  /\ pager_claim blocks 1 twelve_posts
  /\ Z.of_nat (visible_units (showBlocks blocks 1 twelve_posts) blocks) = 2%Z
  /\ visible_units (showBlocks blocks 0 twelve_posts) blocks = 10%nat.
Proof.
  intros blocks.
  assert (Hnd : NoDup (concat blocks)).
  { apply (bool_decide_unpack _). vm_compute. exact I. }
  assert (Hne : Forall (fun b => b <> []) blocks).
  { apply (bool_decide_unpack _). vm_compute. exact I. }
  assert (Hvalid : Forall (Forall (fun r => (r < length twelve_posts)%nat))
                     blocks).
  { apply (bool_decide_unpack _). vm_compute. exact I. }
  split; [exact Hnd|].
  destruct (showBlocks_pages blocks 1 twelve_posts Hnd Hne Hvalid) as [H1 H2].
  destruct (showBlocks_pages blocks 0 twelve_posts Hnd Hne Hvalid) as [_ H3].
  split; [exact H1|]. split.
  - apply H2; [vm_compute; split; [discriminate|reflexivity]|reflexivity].
  - apply H3; [vm_compute; split; [discriminate|reflexivity]|discriminate].
Defined.

(** C2 as stated fails on the blocks of [shared_row_table]: on page 0 unit
    9 is on the page, but hiding unit 10 hides the row they share. *)
Lemma pager_claim_counterexample :
  ~ pager_claim (collectBlocks shared_row_table) 0 shared_row_table.
Proof.
  intros H.
  destruct (H 9%nat [9%nat] eq_refl) as [[_ Hshow] _].
  assert (Hon : on_page 0 POSTS_PER_PAGE 9).
  { unfold on_page, POSTS_PER_PAGE. simpl. lia. }
  specialize (Hshow Hon 9%nat (list_elem_of_here _ _)).
  vm_compute in Hshow. discriminate Hshow.
Qed.

Example shared_row_blocks :
  collectBlocks shared_row_table
  = [[0]; [1]; [2]; [3]; [4]; [5]; [6]; [7]; [8]; [9]; [9; 10]]%nat
  /\ display_at
       (showBlocks (collectBlocks shared_row_table) 0 shared_row_table) 9
     = Some "none".
Proof. split; reflexivity. Qed.

(** ** Blocks of the grouper are well formed *)

Lemma positions_NoDup p trs : NoDup (positions p trs).
Proof.
  unfold positions. apply NoDup_ListNoDup, List.NoDup_filter, seq_NoDup.
Qed.

Lemma row_at_lt trs p i : row_at trs p i = true -> (i < length trs)%nat.
Proof.
  unfold row_at. destruct (trs !! i) eqn:Hi; [|done].
  intros _. by apply lookup_lt_Some in Hi.
Qed.

Lemma collectBlocks_nonempty trs :
  Forall (fun b => b <> []) (collectBlocks trs).
Proof.
  rewrite collectBlocks_map. apply Forall_forall.
  intros b (i & -> & _)%list_elem_of_fmap. unfold unit_of.
  intros H. by apply app_eq_nil in H as [_ H].
Qed.

Lemma collectBlocks_valid trs :
  Forall (Forall (fun r => (r < length trs)%nat)) (collectBlocks trs).
Proof.
  rewrite collectBlocks_map. apply Forall_forall.
  intros b (i & -> & Hi)%list_elem_of_fmap. apply Forall_forall.
  intros j Hj. apply elem_of_positions, row_at_lt in Hi.
  apply elem_of_unit_of in Hj as [->|[<- _]]; lia.
Qed.

Lemma concat_map_NoDup {A B} (f : A -> list B) l :
  NoDup l -> (forall x, x ∈ l -> NoDup (f x)) ->
  (forall x y z, x ∈ l -> y ∈ l -> x <> y -> z ∈ f x -> z ∉ f y) ->
  NoDup (concat (map f l)).
Proof.
  induction l as [|a l IH]; intros Hnd Heach Hdisj; simpl; [constructor|].
  apply NoDup_cons in Hnd as [Ha Hnd]. apply NoDup_app. split; [|split].
  - apply Heach, list_elem_of_here.
  - intros z Hz Hin. apply list_elem_of_In, in_concat in Hin as (k & Hk & Hzk).
    apply in_map_iff in Hk as (y & <- & Hy). apply list_elem_of_In in Hy, Hzk.
    apply (Hdisj a y z); [apply list_elem_of_here|by apply list_elem_of_further| |done..].
    intros ->. done.
  - apply IH; [done| |].
    + intros x Hx. by apply Heach, list_elem_of_further.
    + intros x y z Hx Hy. apply Hdisj; by apply list_elem_of_further.
Qed.

Lemma unit_of_NoDup trs i : NoDup (unit_of trs i).
Proof.
  unfold unit_of. destruct i as [|p]; simpl.
  - apply NoDup_singleton.
  - destruct (row_at trs is_space p); simpl; [|apply NoDup_singleton].
    apply NoDup_cons. split; [|apply NoDup_singleton].
    rewrite list_elem_of_singleton. lia.
Qed.

(** Units share no row as long as no row is at once a post row and the
    spacer of the post row after it. *)
Lemma collectBlocks_NoDup trs :
  (forall j, row_at trs is_post j = true -> row_at trs is_space j = true ->
             row_at trs is_post (S j) = false) ->
  NoDup (concat (collectBlocks trs)).
Proof.
  intros Hno. rewrite collectBlocks_map. apply concat_map_NoDup.
  - apply positions_NoDup.
  - intros i _. apply unit_of_NoDup.
  - intros x y z Hx%elem_of_positions Hy%elem_of_positions Hxy
      Hzx%elem_of_unit_of Hzy%elem_of_unit_of.
    destruct Hzx as [->|[<- Hsx]], Hzy as [->|[Hzy Hsy]]; try lia.
    + subst y. rewrite (Hno x Hx Hsy) in Hy. done.
    + by rewrite (Hno y Hy Hsx) in Hx.
Qed.

(** ** Pagination *)

Lemma paginate_skip pg :
  (length (collectBlocks (rows pg)) <= 10)%nat ->
  exists msg, paginate pg = log msg pg.
Proof.
  intros Hle. unfold paginate.
  destruct (Nat.eqb_spec (length (collectBlocks (rows pg))) 0); [by eexists|].
  destruct (Z.leb_spec (Z.of_nat (length (collectBlocks (rows pg))))
              POSTS_PER_PAGE) as [_|Hgt]; [by eexists|].
  unfold POSTS_PER_PAGE in Hgt. lia.
Qed.

Lemma clamp_page_last total : (1 <= total)%Z -> clamp_page total (total - 1) = (total - 1)%Z.
Proof. unfold clamp_page. lia. Qed.

Lemma paginate_run pg :
  (10 < length (collectBlocks (rows pg)))%nat ->
  let blocks := collectBlocks (rows pg) in
  let total := ceil_div (Z.of_nat (length blocks)) POSTS_PER_PAGE in
  paginate pg
  = schedule_scroll 50
      (updateButtons
         (mkControls total (fun page => showBlocks blocks page) true false
            ("Page 1 of " +:+ number_text total) 0)
         (total - 1)
         (createControls total (fun page => showBlocks blocks page) pg)).
Proof.
  intros Hgt blocks total. unfold paginate. fold blocks. fold total.
  destruct (Nat.eqb_spec (length blocks) 0) as [H0|_]; [unfold blocks in H0; lia|].
  destruct (Z.leb_spec (Z.of_nat (length blocks)) POSTS_PER_PAGE) as [Hle|_].
  { unfold POSTS_PER_PAGE, blocks in Hle. lia. }
  unfold setPage. simpl. rewrite clamp_page_last; [done|].
  pose proof (ceil_div_bounds (Z.of_nat (length blocks))) as Hb.
  fold total in Hb. unfold blocks in Hb. lia.
Qed.

(** C7.  When the grouper yields no unit, or at most ten, [paginate] only
    writes a log line: no widget is created, no row changes its display,
    the callback is not invoked, no scroll is scheduled and nothing is
    scrolled. *)
Theorem paginate_skips_small (pg : Page) :
  (length (collectBlocks (rows pg)) = 0
   \/ length (collectBlocks (rows pg)) <= 10)%nat ->
  rows (paginate pg) = rows pg
  /\ widget (paginate pg) = widget pg
  /\ onPageCalls (paginate pg) = onPageCalls pg
  /\ scrollTimers (paginate pg) = scrollTimers pg
  /\ scrolledTo (paginate pg) = scrolledTo pg.
Proof.
  intros H. destruct (paginate_skip pg) as [msg ->]; [lia|done].
Qed.

Lemma paginate_skips_small_witness :
  (length (collectBlocks (rows eight_posts)) = 8)%nat
  /\ rows (paginate eight_posts) = rows eight_posts
  /\ widget (paginate eight_posts) = None.
Proof.
  split; [reflexivity|].
  destruct (paginate_skips_small eight_posts) as (Hr & Hw & _).
  - right. vm_compute. repeat constructor.
  - split; [exact Hr | exact Hw].
Defined.

Lemma no_spacer_units trs :
  Forall (fun tr => is_space tr = false) trs ->
  forall j, row_at trs is_space j = false.
Proof.
  intros H j. unfold row_at. destruct (trs !! j) as [tr|] eqn:Hj; [|done].
  rewrite Forall_forall in H. apply H. by apply list_elem_of_lookup_2 in Hj.
Qed.

(** What [paginate] leaves behind on 25 units: a widget of 3 pages on page
    index 2, one call of the callback, units 20 to 24 shown and the rows of
    units 0 to 19 hidden. *)
Lemma paginate_25_units pg :
  let blocks := collectBlocks (rows pg) in
  length blocks = 25%nat ->
  NoDup (concat blocks) ->
  (exists c, widget (paginate pg) = Some c
     /\ totalPages c = 3%Z /\ current c = 2%Z
     /\ prevDisabled c = false /\ nextDisabled c = true
     /\ indicator c = "Page 3 of 3")
  /\ onPageCalls (paginate pg) = onPageCalls pg ++ [2%Z]
  /\ forall j b, blocks !! j = Some b ->
       ((20 <= j)%nat -> unit_shown (rows (paginate pg)) b)
       /\ ((j < 20)%nat -> unit_hidden (rows (paginate pg)) b).
Proof.
  intros blocks Hlen Hnd.
  rewrite paginate_run by (fold blocks; lia). fold blocks. rewrite Hlen.
  change (ceil_div (Z.of_nat 25) POSTS_PER_PAGE) with 3%Z.
  split; [eexists; repeat split|]. split; [done|].
  intros j b Hj. simpl.
  assert (Hclaim : pager_claim blocks 2 (rows pg)).
  { apply pager_claim_disjoint;
      [done | apply collectBlocks_nonempty | apply collectBlocks_valid]. }
  destruct (Hclaim j b Hj) as [[_ Hshow] Hhide].
  apply lookup_lt_Some in Hj as Hlt. rewrite Hlen in Hlt.
  split; intros Hjr.
  - apply Hshow. unfold on_page, POSTS_PER_PAGE. lia.
  - apply Hhide. unfold on_page, POSTS_PER_PAGE. lia.
Qed.

(** The scenario on the grouper's own tests: 25 rows pass the post test,
    none passes the spacer test. *)
Lemma paginate_25_tested pg :
  length (positions is_post (rows pg)) = 25%nat ->
  Forall (fun tr => is_space tr = false) (rows pg) ->
  let blocks := collectBlocks (rows pg) in
  length blocks = 25%nat
  /\ (exists c, widget (paginate pg) = Some c
        /\ totalPages c = 3%Z /\ current c = 2%Z
        /\ prevDisabled c = false /\ nextDisabled c = true
        /\ indicator c = "Page 3 of 3")
  /\ onPageCalls (paginate pg) = onPageCalls pg ++ [2%Z]
  /\ forall j b, blocks !! j = Some b ->
       ((20 <= j)%nat -> unit_shown (rows (paginate pg)) b)
       /\ ((j < 20)%nat -> unit_hidden (rows (paginate pg)) b).
Proof.
  intros Hcount Hnospace blocks.
  assert (Hlen : length blocks = 25%nat).
  { unfold blocks. by rewrite collectBlocks_length. }
  split; [done|]. apply paginate_25_units; [done|].
  apply collectBlocks_NoDup. intros i _ Hs.
  by rewrite (no_spacer_units _ Hnospace) in Hs.
Qed.

(** C3.  On a table where the tests of the grouper agree with the class
    tokens, with 25 rows whose class list holds the token [post] and no
    row whose class list holds the token [space], [paginate] finds 25
    units, builds a widget of 3 pages and leaves it on page index 2: the
    callback has run once, with 2; units 20 to 24 are shown and the rows
    of units 0 to 19 are hidden. *)
Theorem paginate_25_posts (pg : Page) :
  Forall tests_agree (rows pg) ->
  length (positions (has_class "post") (rows pg)) = 25%nat ->
  Forall (fun tr => has_class "space" tr = false) (rows pg) ->
  let blocks := collectBlocks (rows pg) in
  length blocks = 25%nat
  /\ (exists c, widget (paginate pg) = Some c
        /\ totalPages c = 3%Z /\ current c = 2%Z
        /\ prevDisabled c = false /\ nextDisabled c = true
        /\ indicator c = "Page 3 of 3")
  /\ onPageCalls (paginate pg) = onPageCalls pg ++ [2%Z]
  /\ forall j b, blocks !! j = Some b ->
       ((20 <= j)%nat -> unit_shown (rows (paginate pg)) b)
       /\ ((j < 20)%nat -> unit_hidden (rows (paginate pg)) b).
Proof.
  intros Hagree Hcount Hnospace. apply paginate_25_tested.
  - rewrite <- Hcount. f_equal. apply positions_ext. intros tr Htr.
    rewrite Forall_forall in Hagree. by destruct (Hagree tr Htr).
  - rewrite Forall_forall in *. intros tr Htr.
    destruct (Hagree tr Htr) as [_ ->]. by apply Hnospace.
Qed.

Lemma paginate_25_posts_witness :
  Forall tests_agree (rows twenty_five_posts)
  /\ length (positions (has_class "post") (rows twenty_five_posts)) = 25%nat
  /\ (exists c, widget (paginate twenty_five_posts) = Some c
        /\ totalPages c = 3%Z /\ current c = 2%Z
        /\ prevDisabled c = false /\ nextDisabled c = true
        /\ indicator c = "Page 3 of 3")
  /\ unit_shown (rows (paginate twenty_five_posts)) [24%nat]
  /\ unit_hidden (rows (paginate twenty_five_posts)) [19%nat].
Proof.
  assert (Hagree : Forall tests_agree (rows twenty_five_posts)).
  { apply Forall_forall. intros tr Htr. apply elem_of_replicate in Htr as [-> _].
    by split. }
  assert (H25 : length (positions (has_class "post") (rows twenty_five_posts))
                = 25%nat) by reflexivity.
  assert (Hns : Forall (fun tr => has_class "space" tr = false)
                  (rows twenty_five_posts)).
  { apply Forall_forall. intros tr Htr. apply elem_of_replicate in Htr as [-> _].
    reflexivity. }
  destruct (paginate_25_posts twenty_five_posts Hagree H25 Hns)
    as (_ & Hw & _ & Hu).
  split; [exact Hagree|]. split; [exact H25|]. split; [exact Hw|]. split.
  - apply (Hu 24%nat [24%nat] eq_refl). repeat constructor.
  - apply (Hu 19%nat [19%nat] eq_refl). repeat constructor.
Defined.

(** C3 as stated fails when posts and spacers are told by class tokens.
    On [post_it_table] 25 rows hold the token [post] and none the token
    [space], yet the grouper finds 31 units and the widget has 4 pages,
    on which no row holding the token is shown.  On [space_x_table] every
    row also passes the spacer test, so each is in the unit of the next
    row too: row 19, the post row of unit 19, is shown again with
    unit 20. *)
Lemma scenario_claim_counterexample :
  ~ scenario_claim
  /\ length (positions (has_class "post") (rows post_it_table)) = 25%nat
  /\ Forall (fun tr => has_class "space" tr = false) (rows post_it_table)
  /\ length (collectBlocks (rows post_it_table)) = 31%nat
  /\ (totalPages <$> widget (paginate post_it_table)) = Some 4%Z
  /\ length (positions (has_class "post") (rows space_x_table)) = 25%nat
  /\ Forall (fun tr => has_class "space" tr = false) (rows space_x_table)
  /\ collectBlocks (rows space_x_table) !! 19%nat = Some [18%nat; 19%nat]
  /\ display_at (rows (paginate space_x_table)) 19 = Some "".
Proof.
  assert (Hns : Forall (fun tr => has_class "space" tr = false)
                  (rows post_it_table)).
  { apply Forall_forall. intros tr Htr. unfold post_it_table, rows in Htr.
    apply elem_of_app in Htr as [Htr|Htr];
      apply elem_of_replicate in Htr as [-> _]; reflexivity. }
  assert (Hnx : Forall (fun tr => has_class "space" tr = false)
                  (rows space_x_table)).
  { apply Forall_forall. intros tr Htr.
    apply elem_of_replicate in Htr as [-> _]. reflexivity. }
  split.
  { intros H. destruct (H post_it_table eq_refl Hns) as [Hlen _].
    vm_compute in Hlen. discriminate Hlen. }
  split; [reflexivity|]. split; [exact Hns|]. split; [reflexivity|].
  split; [reflexivity|]. split; [reflexivity|]. split; [exact Hnx|].
  split; reflexivity.
Qed.

(** ** The controls widget *)

Lemma clamp_page_range total n :
  (1 <= total)%Z -> (0 <= clamp_page total n <= total - 1)%Z.
Proof. unfold clamp_page. lia. Qed.

Lemma updateButtons_ok c cur pg :
  (0 <= cur <= totalPages c - 1)%Z ->
  widget_ok (totalPages c) (updateButtons c cur pg).
Proof.
  intros Hcur. eexists. split; [reflexivity|]. simpl.
  split; [done|]. split; [done|]. unfold buttons_consistent. simpl.
  rewrite Z.leb_le, Z.geb_le. lia.
Qed.











Example single_page_after_construction :
  (prevDisabled <$> widget (createControls 1 no_callback blank_page)) = Some true
  /\ (nextDisabled <$> widget (createControls 1 no_callback blank_page))
     = Some false
  /\ clickNext (createControls 1 no_callback blank_page)
     = createControls 1 no_callback blank_page.
Proof. repeat split. Qed.

(** C5.  On a widget of at least one page, [setPage n] is defined for
    every integer [n]: the page becomes [n] clamped into
    [0 .. totalPages - 1], the lower bound for requests below the range
    and the upper bound for requests above it, and the usual update runs
    with the clamped value: indicator text, button states, one callback. *)
Theorem setPage_clamps (pg : Page) (c : Controls) (n : Z) :
  widget pg = Some c ->
  (1 <= totalPages c)%Z ->
  let k := clamp_page (totalPages c) n in
  (0 <= k <= totalPages c - 1)%Z
  /\ ((n < 0)%Z -> k = 0%Z)
  /\ ((n > totalPages c - 1)%Z -> k = (totalPages c - 1)%Z)
  /\ ((0 <= n <= totalPages c - 1)%Z -> k = n)
  /\ setPage n pg = updateButtons c k pg
  /\ (exists c', widget (setPage n pg) = Some c'
        /\ totalPages c' = totalPages c /\ current c' = k
        /\ indicator c' = page_text (k + 1) (totalPages c)
        /\ buttons_consistent c')
  /\ rows (setPage n pg) = onPage c k (rows pg)
  /\ onPageCalls (setPage n pg) = onPageCalls pg ++ [k].
Proof.
  intros Hc Ht k.
  assert (Hk : (0 <= k <= totalPages c - 1)%Z) by (by apply clamp_page_range).
  assert (Hset : setPage n pg = updateButtons c k pg).
  { unfold setPage. by rewrite Hc. }
  split; [done|]. split; [unfold k, clamp_page; lia|].
  split; [unfold k, clamp_page; lia|]. split; [unfold k, clamp_page; lia|].
  split; [done|]. rewrite Hset. split; [|done].
  destruct (updateButtons_ok c k pg Hk) as (c' & Hc' & Ht' & _ & Hb).
  exists c'. split; [done|]. simpl in Hc'. injection Hc' as <-. done.
Qed.

Lemma setPage_clamps_witness :
  let pg := createControls 3 no_callback blank_page in
  (current <$> widget (setPage 99 pg)) = Some 2%Z
  /\ (current <$> widget (setPage (-4) pg)) = Some 0%Z
  /\ onPageCalls (setPage 99 pg) = [2%Z].
Proof.
  intros pg.
  destruct (setPage_clamps pg
              (mkControls 3 no_callback true false "Page 1 of 3" 0) 99
              eq_refl ltac:(vm_compute; discriminate))
    as (_ & _ & _ & _ & H99 & _ & _ & Hcalls).
  destruct (setPage_clamps pg
              (mkControls 3 no_callback true false "Page 1 of 3" 0) (-4)
              eq_refl ltac:(vm_compute; discriminate))
    as (_ & _ & _ & _ & Hneg & _).
  split; [by rewrite H99|]. split; [by rewrite Hneg|exact Hcalls].
Defined.

Lemma click_prev_cases pg c :
  widget pg = Some c ->
  clickPrev pg = pg
  \/ ((current c > 0)%Z
      /\ clickPrev pg = updateButtons c (current c - 1) pg).
Proof.
  intros Hc. unfold clickPrev, prev_listener. rewrite Hc.
  destruct (prevDisabled c); [by left|].
  destruct (Z.gtb_spec (current c) 0); [right; split; [lia|done]|by left].
Qed.

Lemma click_next_cases pg c :
  widget pg = Some c ->
  clickNext pg = pg
  \/ ((current c < totalPages c - 1)%Z
      /\ clickNext pg = updateButtons c (current c + 1) pg).
Proof.
  intros Hc. unfold clickNext, next_listener. rewrite Hc.
  destruct (nextDisabled c); [by left|].
  destruct (Z.ltb_spec (current c) (totalPages c - 1)); [by right|by left].
Qed.

(** C10.  [createControls] does not invoke [onPage] and changes no row;
    the indicator starts as "Page 1 of totalPages".  Afterwards a click
    either changes nothing at all or moves the page by one and invokes
    the callback once, with the new page; the setter always invokes it
    once, with the clamped page. *)
Theorem createControls_silent (total : Z) (cb : Z -> list Row -> list Row)
    (pg : Page) :
  onPageCalls (createControls total cb pg) = onPageCalls pg
  /\ rows (createControls total cb pg) = rows pg
  /\ (indicator <$> widget (createControls total cb pg))
     = Some ("Page 1 of " +:+ number_text total)
  /\ (current <$> widget (createControls total cb pg)) = Some 0%Z
  /\ forall pg' c, widget pg' = Some c ->
       (clickPrev pg' = pg'
        \/ ((current <$> widget (clickPrev pg')) = Some (current c - 1)%Z
            /\ onPageCalls (clickPrev pg')
               = onPageCalls pg' ++ [(current c - 1)%Z]))
       /\ (clickNext pg' = pg'
           \/ ((current <$> widget (clickNext pg')) = Some (current c + 1)%Z
               /\ onPageCalls (clickNext pg')
                  = onPageCalls pg' ++ [(current c + 1)%Z]))
       /\ forall n, onPageCalls (setPage n pg')
                    = onPageCalls pg' ++ [clamp_page (totalPages c) n].
Proof.
  do 4 (split; [reflexivity|]).
  intros pg' c Hc. split; [|split].
  - destruct (click_prev_cases pg' c Hc) as [Hsame|[_ ->]]; [by left|by right].
  - destruct (click_next_cases pg' c Hc) as [Hsame|[_ ->]]; [by left|by right].
  - intros n. unfold setPage. by rewrite Hc.
Qed.

Lemma createControls_silent_witness :
  let pg := createControls 3 (showBlocks [[0%nat]]) blank_page in
  onPageCalls pg = []
  /\ onPageCalls (clickPrev pg) = []
  /\ onPageCalls (clickNext pg) = [1%Z]
  /\ onPageCalls (setPage 0 pg) = [0%Z].
Proof.
  intros pg.
  destruct (createControls_silent 3 (showBlocks [[0%nat]]) blank_page)
    as (Hcalls & _ & _ & _ & Hstep).
  destruct (Hstep pg _ eq_refl) as (_ & _ & Hset).
  split; [exact Hcalls|]. split; [reflexivity|]. split; [reflexivity|].
  exact (Hset 0%Z).
Defined.

(** ** Row visibility is written by the pager only *)

Lemma paginate_callback pg :
  callback_is_pager pg -> callback_is_pager (paginate pg).
Proof.
  intros H.
  destruct (le_lt_dec (length (collectBlocks (rows pg))) 10) as [Hle|Hgt].
  - by destruct (paginate_skip pg Hle) as [msg ->].
  - rewrite (paginate_run pg Hgt). by eexists.
Qed.

Lemma paginate_writes pg :
  rows_kept pg (paginate pg)
  \/ pager_wrote (collectBlocks (rows pg)) pg (paginate pg).
Proof.
  destruct (le_lt_dec (length (collectBlocks (rows pg))) 10) as [Hle|Hgt].
  - left. by destruct (paginate_skip pg Hle) as [msg ->].
  - right. rewrite (paginate_run pg Hgt). eexists. simpl.
    split; [reflexivity|]. by simpl.
Qed.

Lemma click_writes pg c (click : Page -> Page) cur :
  widget pg = Some c ->
  click pg = pg \/ click pg = updateButtons c cur pg ->
  callback_is_pager pg ->
  callback_is_pager (click pg)
  /\ (rows_kept pg (click pg)
      \/ exists blocks, onPage c = showBlocks blocks
           /\ pager_wrote blocks pg (click pg)).
Proof.
  intros Hc [->| ->] Hcb; [split; [done|by left]|].
  unfold callback_is_pager in *. rewrite Hc in Hcb. destruct Hcb as [blocks Hb].
  simpl. split; [by exists blocks|].
  right. exists blocks. split; [done|]. eexists. simpl.
  split; [reflexivity|]. simpl. by rewrite Hb.
Qed.

(** C9.  Applying [showBlocks] twice with the same page leaves every row
    as one application does.  And whatever happens to the page (the
    paginator running, a click on either button, the delayed scroll),
    either no callback runs and every row is as before, or the callback
    of the widget runs exactly once, that callback is [showBlocks] on the
    blocks of the action (those the paginator has just collected, those
    of the widget clicked), and the rows afterwards are the result of
    that one call on the rows before, for the page the widget is then
    on.  The delayed scroll never changes a row. *)
Theorem showBlocks_idempotent_only_writer :
  (forall blocks p dom,
     showBlocks blocks p (showBlocks blocks p dom) = showBlocks blocks p dom)
  /\ forall pg a, callback_is_pager pg ->
       callback_is_pager (act pg a)
       /\ (rows_kept pg (act pg a)
           \/ exists blocks,
                blocks_of pg a blocks /\ pager_wrote blocks pg (act pg a)).
Proof.
  split; [apply showBlocks_idempotent|].
  intros pg a Hcb. destruct a as [| | |strays]; simpl.
  - split; [by apply paginate_callback|].
    destruct (paginate_writes pg) as [H|H]; [by left|right; eauto].
  - destruct (widget pg) as [c|] eqn:Hc.
    + destruct (click_writes pg c clickPrev (current c - 1)) as [H1 H2];
        [done| |done|].
      { destruct (click_prev_cases pg c Hc) as [H|[_ H]]; auto. }
      split; [done|]. destruct H2 as [?|(blocks & ? & ?)]; [by left|].
      right. exists blocks. split; [by exists c|done].
    + unfold clickPrev. rewrite Hc. split; [done|by left].
  - destruct (widget pg) as [c|] eqn:Hc.
    + destruct (click_writes pg c clickNext (current c + 1)) as [H1 H2];
        [done| |done|].
      { destruct (click_next_cases pg c Hc) as [H|[_ H]]; auto. }
      split; [done|]. destruct H2 as [?|(blocks & ? & ?)]; [by left|].
      right. exists blocks. split; [by exists c|done].
    + unfold clickNext. rewrite Hc. split; [done|by left].
  - unfold fire_scroll. destruct (scrollTimers pg); [split; [done|by left]|].
    unfold scroll_last_visible. simpl.
    destruct (last (visible_posts strays (rows pg)));
      (split; [done|by left]).
Qed.

Lemma showBlocks_idempotent_only_writer_witness :
  let pg := paginate twenty_five_posts in
  callback_is_pager pg
  /\ (rows_kept pg (act pg UserPrev)
      \/ exists blocks,
           blocks_of pg UserPrev blocks
           /\ pager_wrote blocks pg (act pg UserPrev)).
Proof.
  intros pg.
  assert (H0 : callback_is_pager twenty_five_posts) by exact I.
  destruct showBlocks_idempotent_only_writer as [_ H].
  destruct (H twenty_five_posts Paginate H0) as [Hpg _].
  split; [exact Hpg|]. exact (proj2 (H pg UserPrev Hpg)).
Defined.

(** ** The mutation watcher *)

Module WatcherFacts.
Import Watcher.

Lemma settled_step s e : settled s -> step s e = s.
Proof.
  intros (_ & Ho & Ht & _). destruct e; simpl; [by rewrite Ho|by rewrite Ht].
Qed.

Lemma settled_run s trace : settled s -> run s trace = s.
Proof.
  intros H. induction trace as [|e trace IH]; simpl; [done|].
  by rewrite settled_step.
Qed.

Lemma check_waiting s now1 now2 :
  promise s = Pending -> observing s = true -> disconnects s = 0%nat ->
  resolveCalls s = 0%nat -> timerPending s = false ->
  (quiet_or_timed_out s now1 now2 /\ settled (check now1 now2 s))
  \/ (~ quiet_or_timed_out s now1 now2 /\ waiting (check now1 now2 s)
      /\ (now2 - start s <= timeout s)%Z).
Proof.
  intros Hp Ho Hd Hr Ht. unfold check, quiet_or_timed_out.
  destruct (Z.gtb_spec (now1 - stableSince s) 300).
  { left. split; [lia|]. unfold settled. simpl. rewrite Hp, Hd, Hr, Ht. done. }
  destruct (Z.gtb_spec (now2 - start s) (timeout s)).
  { left. split; [lia|]. unfold settled. simpl. rewrite Hp, Hd, Hr, Ht. done. }
  right. split; [lia|]. split; [|lia]. unfold waiting. simpl. done.
Qed.

Lemma check_frame s now1 now2 :
  start (check now1 now2 s) = start s
  /\ timeout (check now1 now2 s) = timeout s.
Proof.
  unfold check.
  destruct (_ >? 300)%Z; [done|]. by destruct (_ >? timeout s)%Z.
Qed.

Lemma mutation_waiting s n now :
  waiting s ->
  waiting (step s (Mutation n now))
  /\ start (step s (Mutation n now)) = start s
  /\ timeout (step s (Mutation n now)) = timeout s.
Proof.
  intros (Hp & Ho & Ht & Hd & Hr). simpl. rewrite Ho. unfold on_mutation.
  destruct (negb _); unfold waiting; simpl; done.
Qed.

Lemma timer_waiting s now1 now2 :
  waiting s ->
  (quiet_or_timed_out s now1 now2 /\ settled (step s (Timer now1 now2)))
  \/ (~ quiet_or_timed_out s now1 now2 /\ waiting (step s (Timer now1 now2))
      /\ (now2 - start s <= timeout s)%Z).
Proof.
  intros (Hp & Ho & Ht & Hd & Hr). simpl. rewrite Ht.
  apply (check_waiting (set_timer false s)); done.
Qed.

Lemma step_frame s e :
  start (step s e) = start s /\ timeout (step s e) = timeout s.
Proof.
  destruct e as [n now|now1 now2]; simpl.
  - destruct (observing s); [|done]. unfold on_mutation. by destruct (negb _).
  - destruct (timerPending s); [|done]. apply (check_frame (set_timer false s)).
Qed.

Lemma step_invariant s e :
  waiting s \/ settled s -> waiting (step s e) \/ settled (step s e).
Proof.
  intros [Hw|Hs]; [|right; by rewrite settled_step].
  destruct e as [n now|now1 now2].
  - left. by apply mutation_waiting.
  - destruct (timer_waiting s now1 now2 Hw) as [[_ H]|[_ [H _]]]; auto.
Qed.

Lemma run_invariant s trace :
  waiting s \/ settled s -> waiting (run s trace) \/ settled (run s trace).
Proof.
  revert s. induction trace as [|e trace IH]; intros s H; simpl; [done|].
  apply IH. by apply step_invariant.
Qed.

Lemma executor_invariant count0 timeout t0 t1 t2 t3 :
  let s := waitForPostsToStabilize count0 timeout t0 t1 t2 t3 in
  start s = t0 /\ Watcher.timeout s = default 5000%Z timeout
  /\ (settled s \/ (waiting s /\ (t3 - t0 <= default 5000 timeout)%Z)).
Proof.
  intros s. unfold s, waitForPostsToStabilize.
  match goal with |- context [check t2 t3 ?s0] => set (init := s0) end.
  destruct (check_frame init t2 t3) as [-> ->].
  split; [done|]. split; [done|].
  destruct (check_waiting init t2 t3) as [[_ H]|(_ & H & Hle)]; auto.
Qed.

(** Enough timer firings on a sound clock settle a waiting watcher. *)
Lemma run_settles trace : forall s clock armed,
  waiting s -> (armed - start s <= timeout s)%Z ->
  well_timed clock armed trace ->
  (timeout s - (armed - start s) < 100 * Z.of_nat (timer_count trace))%Z ->
  settled (run s trace).
Proof.
  induction trace as [|e trace IH]; intros s clock armed Hw Harmed Hwt Hcount.
  - unfold timer_count in Hcount. simpl in Hcount. lia.
  - change (settled (run (step s e) trace)).
    destruct (step_frame s e) as [Hs Ht].
    destruct e as [n now|now1 now2]; simpl in Hwt.
    + destruct Hwt as [_ Hwt].
      destruct (mutation_waiting s n now Hw) as (Hw' & _ & _).
      apply (IH _ now armed); [done| |done|]; rewrite Hs, Ht; done.
    + destruct Hwt as (_ & Hfire & Hle & Hwt).
      destruct (timer_waiting s now1 now2 Hw) as [[_ H]|(_ & Hw' & Hle')].
      * by rewrite settled_run.
      * apply (IH _ now2 now2); [done| |done|]; rewrite Hs, Ht; [done|].
        unfold timer_count in *. simpl in Hcount. lia.
Qed.

(** The count and the start of the quiet window are written by the
    observer only, and only on a count that differs. *)
Lemma check_counts s now1 now2 :
  lastCount (check now1 now2 s) = lastCount s
  /\ stableSince (check now1 now2 s) = stableSince s.
Proof.
  unfold check.
  destruct (_ >? 300)%Z; [done|]. by destruct (_ >? timeout s)%Z.
Qed.

Lemma step_same_count s e n :
  lastCount s = n -> count_is n e ->
  lastCount (step s e) = n /\ stableSince (step s e) = stableSince s.
Proof.
  intros Hn He. destruct e as [m now|now1 now2]; simpl in *.
  - destruct (observing s); [|done]. unfold on_mutation.
    subst m. rewrite <- Hn, Z.eqb_refl. done.
  - destruct (timerPending s); [|done].
    destruct (check_counts (set_timer false s) now1 now2) as [-> ->]. done.
Qed.

Lemma run_same_count trace : forall s n,
  lastCount s = n -> Forall (count_is n) trace ->
  lastCount (run s trace) = n /\ stableSince (run s trace) = stableSince s.
Proof.
  induction trace as [|e trace IH]; intros s n Hn Hall; [done|].
  apply Forall_cons in Hall as [He Hall].
  destruct (step_same_count s e n Hn He) as [Hn' Hs'].
  change (run s (e :: trace)) with (run (step s e) trace).
  rewrite <- Hs'. by apply IH.
Qed.

Lemma mutation_restarts s n now :
  waiting s -> n <> lastCount s ->
  lastCount (step s (Mutation n now)) = n
  /\ stableSince (step s (Mutation n now)) = now.
Proof.
  intros (_ & Ho & _) Hn. simpl. rewrite Ho. unfold on_mutation.
  destruct (Z.eqb_spec n (lastCount s)); [done|]. done.
Qed.

Lemma watcher_run_app s before after :
  run s (before ++ after) = run (run s before) after.
Proof. unfold run. by rewrite fold_left_app. Qed.

End WatcherFacts.

(** C6.  At every point of every run the watcher is either waiting, with
    its observer connected and nothing torn down, or settled, with the
    promise fulfilled, the observer disconnected exactly once and no timer
    left; it is never rejected.  A waiting watcher settles exactly on a
    timer firing that finds the count quiet for more than 300 ms or the
    timeout (5000 ms by default) exceeded, and once settled nothing
    changes any more.  On a clock that does not run backwards and timers
    that do not fire early, it is settled after more than [timeout / 100]
    firings.  The first check runs inside the call: the watcher comes
    back settled if that check finds more than 300 ms since the first
    count or the timeout exceeded, and waiting otherwise.  The quiet
    window is measured from the last change of the count: after a batch
    of mutations that reaches a waiting watcher with a count other than
    the one it holds, and events that leave the count there, the watcher
    holds that count and the reading of that batch; as long as the count
    is the first one it holds the first count and the reading [t1]. *)
Theorem waitForPostsToStabilize_settles (count0 : Z) (timeout : option Z)
    (t0 t1 t2 t3 : Z) (trace : list Watcher.Event) :
  let limit := default 5000%Z timeout in
  let s := Watcher.run
             (Watcher.waitForPostsToStabilize count0 timeout t0 t1 t2 t3)
             trace in
  (Watcher.waiting s \/ Watcher.settled s)
  /\ Watcher.promise s <> Watcher.Rejected
  /\ Watcher.start s = t0 /\ Watcher.timeout s = limit
  /\ (forall e, Watcher.waiting s ->
        (Watcher.settled (Watcher.step s e)
         <-> exists now1 now2, e = Watcher.Timer now1 now2
               /\ Watcher.quiet_or_timed_out s now1 now2))
  /\ (forall e, Watcher.settled s -> Watcher.step s e = s)
  /\ ((t0 <= t3)%Z -> Watcher.well_timed t3 t3 trace ->
      (limit < 100 * Z.of_nat (Watcher.timer_count trace))%Z ->
      Watcher.settled s)
  /\ (let s0 := Watcher.waitForPostsToStabilize count0 timeout t0 t1 t2 t3 in
      ((t2 - t1 > 300 \/ t3 - t0 > limit)%Z -> Watcher.settled s0)
      /\ ((t2 - t1 <= 300)%Z -> (t3 - t0 <= limit)%Z -> Watcher.waiting s0)
      /\ Watcher.lastCount s0 = count0 /\ Watcher.stableSince s0 = t1)
  /\ (forall before n now after,
        trace = before ++ Watcher.Mutation n now :: after ->
        let s1 := Watcher.run
                    (Watcher.waitForPostsToStabilize count0 timeout
                       t0 t1 t2 t3) before in
        Watcher.waiting s1 -> n <> Watcher.lastCount s1 ->
        Forall (Watcher.count_is n) after ->
        Watcher.lastCount s = n /\ Watcher.stableSince s = now)
  /\ (Forall (Watcher.count_is count0) trace ->
      Watcher.lastCount s = count0 /\ Watcher.stableSince s = t1).
Proof.
  intros limit s. subst limit.
  destruct (WatcherFacts.executor_invariant count0 timeout t0 t1 t2 t3)
    as (Hstart & Hlimit & Hinit).
  set (s0 := Watcher.waitForPostsToStabilize count0 timeout t0 t1 t2 t3) in *.
  assert (Hinv : Watcher.waiting s \/ Watcher.settled s).
  { apply WatcherFacts.run_invariant. destruct Hinit as [?|[? _]]; auto. }
  assert (Hframe : Watcher.start s = t0
                   /\ Watcher.timeout s = default 5000%Z timeout).
  { unfold s. clear Hinv Hinit. rewrite <- Hstart, <- Hlimit. clear.
    generalize s0. induction trace as [|e trace IH]; intros s1; [done|].
    simpl. destruct (IH (Watcher.step s1 e)) as [-> ->].
    apply WatcherFacts.step_frame. }
  split; [done|]. split.
  { destruct Hinv as [(Hp & _)|(Hp & _)]; rewrite Hp; discriminate. }
  split; [apply Hframe|]. split; [apply Hframe|].
  assert (Hcounts0 : Watcher.lastCount s0 = count0
                     /\ Watcher.stableSince s0 = t1).
  { apply WatcherFacts.check_counts. }
  split; [|split; [|split; [|split; [|split]]]].
  - intros e Hw. split.
    + intros Hs. destruct e as [n now|now1 now2].
      * destruct (WatcherFacts.mutation_waiting s n now Hw) as [(Hp & _) _].
        destruct Hs as (Hp' & _). congruence.
      * exists now1, now2. split; [done|].
        destruct (WatcherFacts.timer_waiting s now1 now2 Hw)
          as [[Hq _]|(_ & (Hp & _) & _)]; [done|].
        destruct Hs as (Hp' & _). congruence.
    + intros (now1 & now2 & -> & Hq).
      destruct (WatcherFacts.timer_waiting s now1 now2 Hw)
        as [[_ Hs]|(Hnq & _)]; [done|by destruct Hnq].
  - intros e Hs. by apply WatcherFacts.settled_step.
  - intros Hclock Hwt Hcount. destruct Hinit as [Hs|[Hw Hle]].
    + unfold s. by rewrite WatcherFacts.settled_run.
    + apply (WatcherFacts.run_settles trace s0 t3 t3); [done| |done|].
      * rewrite Hstart, Hlimit. done.
      * rewrite Hstart, Hlimit. lia.
  - split; [|split; [|done]].
    + intros Hq. unfold s0, Watcher.waitForPostsToStabilize.
      match goal with |- context [Watcher.check t2 t3 ?i] => set (init := i) end.
      destruct (WatcherFacts.check_waiting init t2 t3)
        as [[_ H]|(Hnq & _)]; [done..|].
      by destruct Hnq.
    + intros H1 H2. unfold s0, Watcher.waitForPostsToStabilize.
      match goal with |- context [Watcher.check t2 t3 ?i] => set (init := i) end.
      destruct (WatcherFacts.check_waiting init t2 t3)
        as [[Hq _]|(_ & H & _)]; [done..| |done].
      unfold Watcher.quiet_or_timed_out in Hq. simpl in Hq. lia.
  - intros before n now after -> s1 Hw1 Hn Hafter. unfold s.
    rewrite WatcherFacts.watcher_run_app.
    change (Watcher.run (Watcher.run s0 before)
              (Watcher.Mutation n now :: after))
      with (Watcher.run (Watcher.step s1 (Watcher.Mutation n now)) after).
    destruct (WatcherFacts.mutation_restarts s1 n now Hw1 Hn) as [Hc Hsince].
    destruct (WatcherFacts.run_same_count after _ n Hc Hafter) as [-> ->].
    done.
  - intros Hall. destruct Hcounts0 as [Hc Hsince].
    destruct (WatcherFacts.run_same_count trace s0 count0 Hc Hall)
      as [Hc' Hs']. fold s in Hc', Hs'. by rewrite Hc', Hs'.
Qed.

Lemma waitForPostsToStabilize_settles_witness :
  Watcher.well_timed 0 0 quiet_trace
  /\ Watcher.settled
       (Watcher.run
          (Watcher.waitForPostsToStabilize 3 (Some 250%Z) 0 0 0 0)
          quiet_trace)
  /\ Watcher.lastCount
       (Watcher.run
          (Watcher.waitForPostsToStabilize 3 (Some 250%Z) 0 0 0 0)
          quiet_trace) = 5%Z
  /\ Watcher.stableSince
       (Watcher.run
          (Watcher.waitForPostsToStabilize 3 (Some 250%Z) 0 0 0 0)
          quiet_trace) = 150%Z.
Proof.
  assert (Hwt : Watcher.well_timed 0 0 quiet_trace).
  { simpl. lia. }
  pose proof (waitForPostsToStabilize_settles 3 (Some 250%Z) 0 0 0 0
                quiet_trace) as H.
  cbv zeta in H.
  destruct H as (_ & _ & _ & _ & _ & _ & Hlive & _ & Hchange & _).
  split; [exact Hwt|]. split.
  - apply Hlive; [lia|exact Hwt|vm_compute; reflexivity].
  - apply (Hchange [Watcher.Timer 100 100] 5%Z 150%Z
             [Watcher.Timer 200 201; Watcher.Timer 305 305]).
    + reflexivity.
    + repeat split; reflexivity.
    + discriminate.
    + repeat constructor.
Defined.

(** With the default timeout and a count that never changes, the watcher
    is still waiting at the poll of 300 ms and settles at the next one. *)
Example quiet_from_the_start :
  let s0 := Watcher.waitForPostsToStabilize 3 None 0 0 0 0 in
  let polls := [Watcher.Timer 100 100; Watcher.Timer 200 200;
                Watcher.Timer 300 300] in
  Watcher.promise (Watcher.run s0 polls) = Watcher.Pending
  /\ Watcher.promise (Watcher.run s0 (polls ++ [Watcher.Timer 400 400]))
     = Watcher.Fulfilled
  /\ Watcher.disconnects (Watcher.run s0 (polls ++ [Watcher.Timer 400 400]))
     = 1%nat.
Proof. repeat split; reflexivity. Qed.

(** ** The one-shot guard *)

(** C8.  The script sets its flag on the first evaluation and schedules
    [init] there, once; evaluated again, at any later point, it changes
    nothing, so any number of evaluations amounts to one. *)
Theorem script_runs_once (w : Script.Window) :
  Script.__sfcPaginatorInitialized (Script.script w) = true
  /\ (Script.__sfcPaginatorInitialized w = true -> Script.script w = w)
  /\ (Script.__sfcPaginatorInitialized w = false ->
      Script.scheduled_inits (Script.script w)
      = S (Script.scheduled_inits w))
  /\ Script.script (Script.script w) = Script.script w
  /\ forall n, Nat.iter (S n) Script.script w = Script.script w.
Proof.
  assert (Hflag : Script.__sfcPaginatorInitialized (Script.script w) = true).
  { unfold Script.script. destruct (Script.__sfcPaginatorInitialized w) eqn:Hi; [done|].
    by destruct (Script.readyState w). }
  assert (Hnoop : forall w', Script.__sfcPaginatorInitialized w' = true ->
                             Script.script w' = w').
  { intros w' Hi. unfold Script.script. by rewrite Hi. }
  split; [done|]. split; [apply Hnoop|]. split; [|split].
  - intros Hi. unfold Script.script, Script.scheduled_inits. rewrite Hi.
    destruct (Script.readyState w); simpl; rewrite length_app; simpl; lia.
  - by apply Hnoop.
  - induction n as [|n IH]; [done|].
    change (Script.script (Nat.iter (S n) Script.script w) = Script.script w).
    rewrite IH. by apply Hnoop.
Qed.

Lemma script_runs_once_witness :
  let w := Script.mkWindow false Script.Complete [] [] in
  Script.scheduled_inits (Script.script w) = 1%nat
  /\ Script.script (Script.script w) = Script.script w
  /\ Script.script (Script.mkWindow true Script.Loading [] [])
     = Script.mkWindow true Script.Loading [] [].
Proof.
  intros w.
  destruct (script_runs_once w) as (_ & _ & Hone & Htwice & _).
  destruct (script_runs_once (Script.mkWindow true Script.Loading [] []))
    as (_ & Hnoop & _).
  split; [exact (Hone eq_refl)|]. split; [exact Htwice|exact (Hnoop eq_refl)].
Defined.

(** ** Where the word-boundary test and the class tokens agree *)

Module ClassNameFacts.
Import ClassName.

Lemma whitespace_not_word c :
  is_ascii_whitespace c = true -> is_word_char c = false.
Proof.
  unfold is_ascii_whitespace. rewrite !orb_true_iff, !Ascii.eqb_eq.
  intros [[[[->| ->]| ->]| ->]| ->]; reflexivity.
Qed.

Lemma word_not_whitespace c :
  is_word_char c = true -> is_ascii_whitespace c = false.
Proof.
  intros Hw. destruct (is_ascii_whitespace c) eqn:Hs; [|done].
  apply whitespace_not_word in Hs. congruence.
Qed.

Lemma append_cons c s t : String c s +:+ t = String c (s +:+ t).
Proof. reflexivity. Qed.

Lemma append_nil_r s : s +:+ EmptyString = s.
Proof.
  induction s as [|c s IH]; [done|]. by rewrite append_cons, IH.
Qed.

Lemma append_snoc s c t : (s +:+ String c EmptyString) +:+ t = s +:+ String c t.
Proof.
  induction s as [|a s IH]; [done|]. by rewrite !append_cons, IH.
Qed.

Lemma snoc_nonempty s c : s +:+ String c EmptyString <> EmptyString.
Proof. destruct s; [done|]. by rewrite append_cons. Qed.

Lemma last_is_word_all w prev :
  all_word w = true ->
  last_is_word prev w = match w with EmptyString => prev | _ => true end.
Proof.
  revert prev. induction w as [|c w IH]; intros prev H; simpl; [done|].
  simpl in H. apply andb_true_iff in H as [Hc Hw].
  rewrite (IH _ Hw), Hc. by destruct w.
Qed.

(** After the literal, a word boundary: the literal is the whole token. *)
Lemma literal_then_boundary w s :
  all_word w = true -> plain s = true ->
  match strip_prefix w s with
  | Some rest => negb (head_is_word rest)
  | None => false
  end = String.eqb w (first_token s).
Proof.
  revert s. induction w as [|a w IH]; intros s Hw Hs.
  - destruct s as [|c s]; [done|]. simpl in *.
    apply andb_true_iff in Hs as [Hc _].
    destruct (is_ascii_whitespace c) eqn:Hws.
    + by rewrite (whitespace_not_word c Hws).
    + rewrite orb_false_r in Hc. by rewrite Hc.
  - simpl in Hw. apply andb_true_iff in Hw as [Ha Hw].
    destruct s as [|b s]; [done|]. simpl in Hs.
    apply andb_true_iff in Hs as [Hb Hs]. simpl.
    destruct (Ascii.eqb_spec a b) as [<-|Hne].
    + rewrite (word_not_whitespace a Ha). simpl.
      rewrite Ascii.eqb_refl. by apply IH.
    + destruct (is_ascii_whitespace b); [done|]. simpl.
      by rewrite (proj2 (Ascii.eqb_neq a b) Hne).
Qed.

Section Literal.

Variable w : string.
Hypothesis Hword : all_word w = true.
Hypothesis Hnonempty : w <> EmptyString.

Lemma match_here_fresh s :
  plain s = true ->
  match_here w false s = head_is_word s && String.eqb w (first_token s).
Proof.
  intros Hs. unfold match_here. rewrite <- literal_then_boundary by done.
  rewrite (last_is_word_all w false Hword).
  destruct w; [done|]. by destruct (strip_prefix _ s).
Qed.

Lemma match_here_inside s : plain s = true -> match_here w true s = false.
Proof.
  intros Hs. unfold match_here.
  destruct w as [|a w'] eqn:Ew; [done|]. simpl in Hword.
  apply andb_true_iff in Hword as [Ha _].
  destruct s as [|c s]; [done|]. simpl in *.
  apply andb_true_iff in Hs as [Hc _].
  destruct (is_word_char c) eqn:Hwc; [done|]. simpl.
  destruct (Ascii.eqb_spec a c) as [->|_]; [congruence|done].
Qed.

Lemma scan_nil prev : scan w prev EmptyString = match_here w prev EmptyString.
Proof. simpl. apply orb_false_r. Qed.

Lemma scan_cons prev c s :
  scan w prev (String c s)
  = match_here w prev (String c s) || scan w (is_word_char c) s.
Proof. reflexivity. Qed.

Lemma tokens_from_cons cur c s :
  tokens_from cur (String c s)
  = if is_ascii_whitespace c
    then match cur with
         | EmptyString => tokens_from EmptyString s
         | _ => cur :: tokens_from EmptyString s
         end
    else tokens_from (cur +:+ String c EmptyString) s.
Proof. reflexivity. Qed.

Lemma scan_tokens s :
  plain s = true ->
  existsb (String.eqb w) (tokens_from EmptyString s) = scan w false s
  /\ forall cur, cur <> EmptyString ->
       existsb (String.eqb w) (tokens_from cur s)
       = String.eqb w (cur +:+ first_token s) || scan w true s.
Proof.
  induction s as [|c s IH]; intros Hs.
  - split.
    + by rewrite scan_nil, match_here_fresh.
    + intros cur Hcur.
      rewrite scan_nil, match_here_inside, orb_false_r by done.
      cbn [first_token tokens_from]. rewrite append_nil_r.
      destruct cur; [done|]. cbn [existsb]. apply orb_false_r.
  - pose proof Hs as Hs0. cbn [plain] in Hs.
    apply andb_true_iff in Hs as [Hc Hs].
    destruct (IH Hs) as [IHa IHb]. clear IH.
    destruct (is_ascii_whitespace c) eqn:Hws.
    + pose proof (whitespace_not_word c Hws) as Hnw. split.
      * rewrite tokens_from_cons, Hws, scan_cons, match_here_fresh by done.
        cbn [head_is_word]. by rewrite Hnw, IHa.
      * intros cur Hcur.
        rewrite tokens_from_cons, Hws, scan_cons, match_here_inside by done.
        cbn [first_token]. rewrite Hws, Hnw, append_nil_r.
        destruct cur; [done|]. cbn [existsb]. by rewrite IHa.
    + rewrite orb_false_r in Hc. split.
      * rewrite tokens_from_cons, Hws, scan_cons, match_here_fresh by done.
        change (EmptyString +:+ String c EmptyString) with (String c EmptyString).
        rewrite (IHb (String c EmptyString)) by done.
        cbn [head_is_word first_token]. by rewrite Hws, Hc.
      * intros cur Hcur.
        rewrite tokens_from_cons, Hws, scan_cons, match_here_inside by done.
        rewrite IHb by apply snoc_nonempty.
        cbn [first_token]. by rewrite Hws, Hc, append_snoc.
Qed.

(** On a plain class name the regular expression finds the literal
    exactly when it is one of the class tokens. *)
Lemma word_test_is_token cls :
  plain cls = true -> word_test w cls = has_token w cls.
Proof.
  intros Hs. unfold word_test, has_token, tokens.
  by destruct (scan_tokens cls Hs) as [-> _].
Qed.

End Literal.

End ClassNameFacts.

Lemma plain_tests_agree tr :
  ClassName.plain (className tr) = true -> tests_agree tr.
Proof.
  intros H. split.
  - by apply ClassNameFacts.word_test_is_token.
  - by apply ClassNameFacts.word_test_is_token.
Qed.

(** ** The delayed scroll *)

(** After the jump to the last page the scroll callback picks the last
    post row, which is the last row left visible; a visible [tr.post] of
    a [tfoot], which the grouper does not list, comes after it and is
    picked instead. *)
Example scroll_after_jump :
  scrollTimers (paginate twenty_five_posts) = [50%Z]
  /\ scrolledTo (fire_scroll [] (paginate twenty_five_posts))
     = Some (Listed 24)
  /\ scrolledTo (fire_scroll [] (clickPrev (paginate twenty_five_posts)))
     = Some (Listed 19)
  /\ scrolledTo
       (fire_scroll [mkStray 0 (mkRow "post" ""); mkStray 25 (mkRow "post" "")]
          (paginate twenty_five_posts))
     = Some (Unlisted 1)
  /\ scrolledTo
       (fire_scroll [mkStray 0 (mkRow "post" ""); mkStray 25 (mkRow "head" "")]
          (paginate twenty_five_posts))
     = Some (Listed 24).
Proof. repeat split; reflexivity. Qed.

(** * Further properties of the pager *)

Lemma last_write_None_iff s e i blocks r :
  last_write s e i blocks r = None <-> r ∉ concat blocks.
Proof.
  split; [|apply last_write_not_in].
  revert i. induction blocks as [|b rest IH]; intros i H; simpl in *.
  - apply not_elem_of_nil.
  - destruct (last_write s e (S i) rest r) eqn:Hrest; [done|].
    destruct (bool_decide_reflect (r ∈ b)) as [|Hnb]; [done|].
    rewrite elem_of_app. intros [?|Hin]; [done|].
    by apply (IH (S i)).
Qed.

Lemma last_write_some s e i blocks r v :
  last_write s e i blocks r = Some v ->
  exists j b, blocks !! j = Some b /\ r ∈ b
              /\ v = page_visible s e (i + j)
              /\ forall j' b', (j < j')%nat -> blocks !! j' = Some b' -> r ∉ b'.
Proof.
  revert i. induction blocks as [|b rest IH]; intros i H; simpl in H; [done|].
  destruct (last_write s e (S i) rest r) as [v'|] eqn:Hrest.
  - injection H as <-.
    destruct (IH (S i) Hrest) as (j & b' & Hj & Hr & Hv & Hlast).
    exists (S j), b'. split; [done|]. split; [done|]. split.
    + rewrite Hv. f_equal. lia.
    + intros [|j'] b'' Hlt Hj'; [lia|]. simpl in Hj'.
      apply (Hlast j'); [lia|done].
  - destruct (bool_decide_reflect (r ∈ b)) as [Hin|]; [|done].
    injection H as <-. exists 0%nat, b. split; [done|]. split; [done|]. split.
    + by rewrite Nat.add_0_r.
    + intros [|j'] b' Hlt Hj'; [lia|]. simpl in Hj'.
      apply last_write_None_iff in Hrest. intros Hr. apply Hrest.
      apply list_elem_of_In, in_concat. exists b'.
      split; apply list_elem_of_In; [by eapply list_elem_of_lookup_2|done].
Qed.

Lemma last_write_last s e i blocks j b r :
  blocks !! j = Some b -> r ∈ b ->
  (forall j' b', (j < j')%nat -> blocks !! j' = Some b' -> r ∉ b') ->
  last_write s e i blocks r = Some (page_visible s e (i + j)).
Proof.
  intros Hj Hr Hlast.
  destruct (last_write s e i blocks r) as [v|] eqn:Hw.
  - destruct (last_write_some _ _ _ _ _ _ Hw) as (k & b' & Hk & Hrk & -> & Hklast).
    destruct (lt_eq_lt_dec j k) as [[Hlt| ->]|Hgt]; [|done|].
    + by destruct (Hlast k b' Hlt Hk).
    + by destruct (Hklast j b Hgt Hj).
  - apply last_write_None_iff in Hw. destruct Hw.
    apply list_elem_of_In, in_concat. exists b.
    split; apply list_elem_of_In; [by eapply list_elem_of_lookup_2|done].
Qed.

Lemma show_loop_className s e i blocks dom :
  className <$> show_loop s e i blocks dom = className <$> dom.
Proof.
  apply list_eq. intros r. rewrite !list_lookup_fmap, show_loop_lookup.
  destruct (last_write s e i blocks r); [|done]. by destruct (dom !! r).
Qed.

(** X1.  [showBlocks] neither adds nor removes rows, never changes a class
    name, and leaves every row that belongs to no block exactly as it
    was. *)
Theorem showBlocks_frame (blocks : list (list nat)) (p : Z) (dom : list Row) :
  length (showBlocks blocks p dom) = length dom
  /\ className <$> showBlocks blocks p dom = className <$> dom
  /\ forall r, r ∉ concat blocks -> showBlocks blocks p dom !! r = dom !! r.
Proof.
  split; [apply showBlocks_length|]. split; [apply show_loop_className|].
  intros r Hr. unfold showBlocks.
  by rewrite show_loop_lookup, last_write_not_in.
Qed.

(** X2.  The last block that holds a row decides its display: the row ends
    with [''] when that block is on the page and with ['none'] when it
    is not, whatever earlier blocks sharing the row were given. *)
Theorem showBlocks_last_writer (blocks : list (list nat)) (p : Z)
    (dom : list Row) (j : nat) (b : list nat) (r : nat) :
  blocks !! j = Some b -> r ∈ b ->
  (forall j' b', (j < j')%nat -> blocks !! j' = Some b' -> r ∉ b') ->
  (r < length dom)%nat ->
  (on_page p POSTS_PER_PAGE j ->
   display_at (showBlocks blocks p dom) r = Some "")
  /\ (~ on_page p POSTS_PER_PAGE j ->
      display_at (showBlocks blocks p dom) r = Some "none").
Proof.
  intros Hj Hr Hlast Hlt. unfold display_at, showBlocks.
  rewrite show_loop_lookup, (last_write_last _ _ _ _ j b r Hj Hr Hlast).
  destruct (lookup_lt_is_Some_2 dom r Hlt) as [tr ->]. simpl.
  rewrite <- page_visible_on_page.
  destruct (page_visible _ _ j); split; intros H; done.
Qed.

Lemma showBlocks_last_writer_witness :
  display_at
    (showBlocks (collectBlocks shared_row_table) 1 shared_row_table) 9
  = Some ""
  /\ display_at
       (showBlocks (collectBlocks shared_row_table) 0 shared_row_table) 9
     = Some "none".
Proof.
  assert (Hlast : forall j' b', (10 < j')%nat ->
            collectBlocks shared_row_table !! j' = Some b' -> 9%nat ∉ b').
  { intros j' b' Hlt Hj'. apply lookup_lt_Some in Hj'.
    change (length (collectBlocks shared_row_table)) with 11%nat in Hj'. lia. }
  assert (Hin : 9%nat ∈ [9%nat; 10%nat]) by apply list_elem_of_here.
  assert (Hlt : (9 < length shared_row_table)%nat) by (vm_compute; lia).
  split.
  - apply (showBlocks_last_writer (collectBlocks shared_row_table) 1
             shared_row_table 10 [9; 10]%nat 9 eq_refl Hin Hlast Hlt).
    unfold on_page, POSTS_PER_PAGE. simpl. lia.
  - apply (showBlocks_last_writer (collectBlocks shared_row_table) 0
             shared_row_table 10 [9; 10]%nat 9 eq_refl Hin Hlast Hlt).
    unfold on_page, POSTS_PER_PAGE. simpl. lia.
Defined.

(** X3.  Showing a page overrides whatever page was shown before: the rows
    after [showBlocks blocks p] do not depend on an earlier
    [showBlocks blocks q]. *)
Theorem showBlocks_absorbs (blocks : list (list nat)) (p q : Z)
    (dom : list Row) :
  showBlocks blocks p (showBlocks blocks q dom) = showBlocks blocks p dom.
Proof.
  apply list_eq. intros r. unfold showBlocks.
  rewrite (show_loop_lookup _ _ _ _ (show_loop _ _ _ _ _)), !show_loop_lookup.
  destruct (last_write (p * POSTS_PER_PAGE) _ 0 blocks r) as [v|] eqn:Hp.
  - destruct (last_write (q * POSTS_PER_PAGE) _ 0 blocks r); [|done].
    by destruct (dom !! r).
  - apply last_write_None_iff in Hp.
    by rewrite (last_write_not_in _ _ _ _ _ Hp).
Qed.

Lemma on_page_home p j :
  on_page p POSTS_PER_PAGE j <-> p = (Z.of_nat j / 10)%Z.
Proof.
  unfold on_page, POSTS_PER_PAGE.
  pose proof (Z.div_mod (Z.of_nat j) 10 ltac:(lia)).
  pose proof (Z.mod_pos_bound (Z.of_nat j) 10 ltac:(lia)). lia.
Qed.

(** X4.  With non-empty units that share no row, every unit has exactly
    one page on which [showBlocks] shows it, page [j / 10] for unit [j],
    and that page lies within [0 .. totalPages - 1]. *)
Theorem showBlocks_one_page (blocks : list (list nat)) (dom : list Row)
    (j : nat) (b : list nat) :
  NoDup (concat blocks) ->
  Forall (fun b => b <> []) blocks ->
  Forall (Forall (fun r => (r < length dom)%nat)) blocks ->
  blocks !! j = Some b ->
  (0 <= Z.of_nat j / 10
   < ceil_div (Z.of_nat (length blocks)) POSTS_PER_PAGE)%Z
  /\ forall p, unit_shown (showBlocks blocks p dom) b
               <-> p = (Z.of_nat j / 10)%Z.
Proof.
  intros Hnd Hne Hvalid Hj. split.
  - apply lookup_lt_Some in Hj.
    pose proof (ceil_div_bounds (Z.of_nat (length blocks))) as Hb.
    pose proof (Z.div_mod (Z.of_nat j) 10 ltac:(lia)).
    pose proof (Z.mod_pos_bound (Z.of_nat j) 10 ltac:(lia)). lia.
  - intros p. rewrite <- on_page_home.
    by destruct (pager_claim_disjoint blocks dom p Hnd Hne Hvalid j b Hj).
Qed.

Lemma showBlocks_one_page_witness :
  unit_shown
    (showBlocks (collectBlocks twelve_posts) 1 twelve_posts) [11%nat]
  /\ ~ unit_shown
         (showBlocks (collectBlocks twelve_posts) 0 twelve_posts) [11%nat].
Proof.
  assert (Hnd : NoDup (concat (collectBlocks twelve_posts))).
  { apply (bool_decide_unpack _). vm_compute. exact I. }
  assert (Hne : Forall (fun b => b <> []) (collectBlocks twelve_posts)).
  { apply (bool_decide_unpack _). vm_compute. exact I. }
  assert (Hvalid : Forall (Forall (fun r => (r < length twelve_posts)%nat))
                     (collectBlocks twelve_posts)).
  { apply (bool_decide_unpack _). vm_compute. exact I. }
  destruct (showBlocks_one_page (collectBlocks twelve_posts) twelve_posts
              11 [11%nat] Hnd Hne Hvalid eq_refl) as [_ H].
  split.
  - apply H. reflexivity.
  - intros Hs. apply H in Hs. discriminate Hs.
Defined.

(** X5.  A page index outside [0 .. totalPages - 1] hides every row of
    every block, shared rows included. *)
Theorem showBlocks_out_of_range (blocks : list (list nat)) (p : Z)
    (dom : list Row) (r : nat) :
  (p < 0 \/ ceil_div (Z.of_nat (length blocks)) POSTS_PER_PAGE <= p)%Z ->
  r ∈ concat blocks -> (r < length dom)%nat ->
  display_at (showBlocks blocks p dom) r = Some "none".
Proof.
  intros Hp Hr Hlt. unfold display_at, showBlocks.
  rewrite show_loop_lookup.
  destruct (last_write (p * POSTS_PER_PAGE) _ 0 blocks r) as [v|] eqn:Hw.
  - destruct (last_write_some _ _ _ _ _ _ Hw) as (j & b & Hj & _ & -> & _).
    destruct (lookup_lt_is_Some_2 dom r Hlt) as [tr ->]. simpl.
    apply lookup_lt_Some in Hj.
    pose proof (ceil_div_bounds (Z.of_nat (length blocks))) as Hb.
    unfold page_visible, POSTS_PER_PAGE in *.
    destruct (Z.geb_spec (Z.of_nat j) (p * 10)),
      (Z.ltb_spec (Z.of_nat j) (p * 10 + 10)); simpl; try done. lia.
  - apply last_write_None_iff in Hw. done.
Qed.

Lemma showBlocks_out_of_range_witness :
  display_at (showBlocks (collectBlocks twelve_posts) 2 twelve_posts) 11
  = Some "none"
  /\ display_at (showBlocks (collectBlocks twelve_posts) (-1) twelve_posts) 0
     = Some "none".
Proof.
  split.
  - apply showBlocks_out_of_range.
    + right. vm_compute. discriminate.
    + apply (bool_decide_unpack _). vm_compute. exact I.
    + vm_compute. lia.
  - apply showBlocks_out_of_range.
    + left. lia.
    + apply (bool_decide_unpack _). vm_compute. exact I.
    + vm_compute. lia.
Defined.

(** * Further properties of the row grouper *)

Lemma row_at_app_l trs more p i :
  (i < length trs)%nat -> row_at (trs ++ more) p i = row_at trs p i.
Proof. intros Hi. unfold row_at. by rewrite lookup_app_l. Qed.

Lemma unit_of_app_l trs more i :
  (i < length trs)%nat -> unit_of (trs ++ more) i = unit_of trs i.
Proof.
  intros Hi. unfold unit_of. destruct i as [|p]; [done|].
  by rewrite row_at_app_l by lia.
Qed.

Lemma positions_app p trs more :
  positions p (trs ++ more)
  = positions p trs
    ++ List.filter (row_at (trs ++ more) p) (seq (length trs) (length more)).
Proof.
  unfold positions. rewrite length_app, seq_app, List.filter_app. f_equal.
  apply filter_ext_in. intros i Hi%in_seq. apply row_at_app_l. lia.
Qed.

(** X6.  [collectBlocks] returns one block per row passing the post test,
    in document order, ending with that row; a block is either the post
    row alone, or the row just before it followed by the post row, the
    second exactly when that row passes the spacer test. *)
Theorem collectBlocks_shape (trs : list Row) :
  last <$> collectBlocks trs = Some <$> positions is_post trs
  /\ forall b, b ∈ collectBlocks trs ->
       exists i, row_at trs is_post i = true
         /\ ((b = [i] /\ (i = 0%nat \/ row_at trs is_space (i - 1) = false))
             \/ (exists p, i = S p /\ row_at trs is_space p = true
                           /\ b = [p; i])).
Proof.
  rewrite collectBlocks_map. split.
  - rewrite <- list_fmap_compose. apply list_fmap_ext.
    intros k i _. apply unit_of_last.
  - intros b (i & -> & Hi)%list_elem_of_fmap. exists i.
    split; [by apply elem_of_positions|]. unfold unit_of.
    destruct i as [|p]; [left; auto|]. simpl.
    rewrite Nat.sub_0_r. destruct (row_at trs is_space p) eqn:Hs.
    + right. by exists p.
    + left. auto.
Qed.

(** X7.  Rows appended to the table only append blocks: the blocks of the
    shorter table are a prefix of the blocks of the longer one, so units
    already found keep their index. *)
Theorem collectBlocks_prefix (trs more : list Row) :
  collectBlocks trs `prefix_of` collectBlocks (trs ++ more).
Proof.
  rewrite !collectBlocks_map, positions_app, map_app.
  eexists. f_equal. apply map_ext_in. intros i Hi.
  apply unit_of_app_l.
  apply list_elem_of_In, elem_of_positions, row_at_lt in Hi. done.
Qed.

Lemma concat_map_dup {A B} (f : A -> list B) l x y z :
  NoDup (concat (map f l)) -> x ∈ l -> y ∈ l -> x <> y ->
  z ∈ f x -> z ∈ f y -> False.
Proof.
  induction l as [|a l IH]; intros Hnd Hx Hy Hxy Hzx Hzy.
  - by apply not_elem_of_nil in Hx.
  - simpl in Hnd. apply NoDup_app in Hnd as (_ & Hdisj & Hnd).
    assert (Hin : forall u, u ∈ l -> z ∈ f u -> z ∈ concat (map f l)).
    { intros u Hu Hzu. apply list_elem_of_In, in_concat. exists (f u).
      split; [apply in_map; by apply list_elem_of_In|by apply list_elem_of_In]. }
    apply elem_of_cons in Hx as [->|Hx], Hy as [->|Hy]; [done| | |by apply IH].
    + apply (Hdisj z Hzx). by apply (Hin y).
    + apply (Hdisj z Hzy). by apply (Hin x).
Qed.

(** X8.  Two blocks of [collectBlocks] share a row exactly when some row
    passes both tests and is followed by a row passing the post test:
    otherwise no row occurs twice in the blocks. *)
Theorem collectBlocks_disjoint_iff (trs : list Row) :
  NoDup (concat (collectBlocks trs))
  <-> forall j, row_at trs is_post j = true -> row_at trs is_space j = true ->
                row_at trs is_post (S j) = false.
Proof.
  split; [|apply collectBlocks_NoDup].
  intros Hnd j Hp Hs. destruct (row_at trs is_post (S j)) eqn:Hn; [|done].
  exfalso. rewrite collectBlocks_map in Hnd.
  apply (concat_map_dup (unit_of trs) _ j (S j) j Hnd).
  - by apply elem_of_positions.
  - by apply elem_of_positions.
  - lia.
  - apply elem_of_unit_of. by left.
  - apply elem_of_unit_of. by right.
Qed.

(** * Further properties of pagination *)

Lemma row_at_className trs trs' (f : string -> bool) i :
  className <$> trs = className <$> trs' ->
  row_at trs (fun tr => f (className tr)) i
  = row_at trs' (fun tr => f (className tr)) i.
Proof.
  intros H. unfold row_at.
  assert (Hi : className <$> trs !! i = className <$> trs' !! i).
  { by rewrite <- !list_lookup_fmap, H. }
  destruct (trs !! i), (trs' !! i); simpl in Hi; congruence.
Qed.

(** The blocks depend on the class names only. *)
Lemma collectBlocks_className trs trs' :
  className <$> trs = className <$> trs' ->
  collectBlocks trs = collectBlocks trs'.
Proof.
  intros H. rewrite !collectBlocks_map.
  assert (Hlen : length trs = length trs').
  { by rewrite <- (length_fmap className trs), H, length_fmap. }
  assert (Hpost : forall i, row_at trs is_post i = row_at trs' is_post i).
  { intros i. apply (row_at_className _ _ (ClassName.word_test "post") i H). }
  assert (Hspace : forall i, row_at trs is_space i = row_at trs' is_space i).
  { intros i. apply (row_at_className _ _ (ClassName.word_test "space") i H). }
  unfold positions. rewrite Hlen.
  rewrite (filter_ext _ _ Hpost). apply map_ext. intros i.
  unfold unit_of. destruct i as [|p]; [done|]. by rewrite Hspace.
Qed.

Lemma collectBlocks_showBlocks blocks p dom :
  collectBlocks (showBlocks blocks p dom) = collectBlocks dom.
Proof. apply collectBlocks_className, show_loop_className. Qed.

(** X9.  Whenever more than ten units exist and they share no row,
    [paginate] builds a widget of [ceil(U/10)] pages, at least two, and
    lands on the last one: Previous enabled, Next disabled, the indicator
    reading "Page N of N", one callback, one scroll scheduled in 50 ms;
    the units from [10 * (N - 1)] on are shown, between one and ten of
    them, and all earlier units are hidden. *)
Theorem paginate_last_page (pg : Page) :
  let blocks := collectBlocks (rows pg) in
  let U := Z.of_nat (length blocks) in
  let total := ceil_div U POSTS_PER_PAGE in
  (10 < length blocks)%nat ->
  NoDup (concat blocks) ->
  (2 <= total)%Z
  /\ (exists c, widget (paginate pg) = Some c
        /\ totalPages c = total /\ current c = (total - 1)%Z
        /\ prevDisabled c = false /\ nextDisabled c = true
        /\ indicator c = page_text total total)
  /\ onPageCalls (paginate pg) = onPageCalls pg ++ [(total - 1)%Z]
  /\ scrollTimers (paginate pg) = scrollTimers pg ++ [50%Z]
  /\ (forall j b, blocks !! j = Some b ->
        ((10 * (total - 1) <= Z.of_nat j)%Z ->
         unit_shown (rows (paginate pg)) b)
        /\ ((Z.of_nat j < 10 * (total - 1))%Z ->
            unit_hidden (rows (paginate pg)) b))
  /\ Z.of_nat (visible_units (rows (paginate pg)) blocks)
     = (U - 10 * (total - 1))%Z
  /\ (1 <= U - 10 * (total - 1) <= 10)%Z.
Proof.
  intros blocks U total Hgt Hnd.
  pose proof (ceil_div_bounds U) as Hb. fold total in Hb.
  assert (HU : (10 < U)%Z) by (unfold U; lia).
  assert (Htotal : (2 <= total)%Z) by lia.
  split; [done|].
  rewrite paginate_run by done. fold blocks U total. simpl.
  split.
  { eexists. split; [reflexivity|]. simpl. rewrite Z.sub_add.
    repeat split.
    - apply Z.leb_gt. lia.
    - apply Z.geb_le. lia. }
  split; [done|]. split; [done|].
  assert (Hne : Forall (fun b => b <> []) blocks)
    by apply collectBlocks_nonempty.
  assert (Hvalid : Forall (Forall (fun r => (r < length (rows pg))%nat)) blocks)
    by apply collectBlocks_valid.
  split; [|split; [|lia]].
  - intros j b Hj.
    destruct (pager_claim_disjoint blocks (rows pg) (total - 1) Hnd Hne Hvalid
                j b Hj) as [[_ Hshow] Hhide].
    apply lookup_lt_Some in Hj as Hlt. fold U in Hb.
    split; intros Hjr.
    + apply Hshow. unfold on_page, POSTS_PER_PAGE. unfold U in Hb. lia.
    + apply Hhide. unfold on_page, POSTS_PER_PAGE. lia.
  - rewrite (visible_units_count blocks (rows pg) (total - 1) Hnd Hne Hvalid)
      by lia.
    fold U. unfold POSTS_PER_PAGE. lia.
Qed.

Lemma paginate_last_page_witness :
  (exists c, widget (paginate twenty_five_posts) = Some c
     /\ totalPages c = 3%Z /\ current c = 2%Z
     /\ prevDisabled c = false /\ nextDisabled c = true
     /\ indicator c = "Page 3 of 3")
  /\ Z.of_nat (visible_units (rows (paginate twenty_five_posts))
                 (collectBlocks (rows twenty_five_posts))) = 5%Z.
Proof.
  assert (Hgt : (10 < length (collectBlocks (rows twenty_five_posts)))%nat).
  { vm_compute. lia. }
  assert (Hnd : NoDup (concat (collectBlocks (rows twenty_five_posts)))).
  { apply (bool_decide_unpack _). vm_compute. exact I. }
  destruct (paginate_last_page twenty_five_posts Hgt Hnd)
    as (_ & Hw & _ & _ & _ & Hn & _).
  split; [exact Hw|exact Hn].
Defined.

(** X10.  Running [paginate] again on its own result changes neither the
    rows nor the widget: the same blocks are found, the widget is rebuilt
    on the same page and the same page is shown. *)
Theorem paginate_twice (pg : Page) :
  rows (paginate (paginate pg)) = rows (paginate pg)
  /\ widget (paginate (paginate pg)) = widget (paginate pg).
Proof.
  destruct (le_lt_dec (length (collectBlocks (rows pg))) 10) as [Hle|Hgt].
  - destruct (paginate_skip pg Hle) as [msg Hpg]. rewrite Hpg.
    destruct (paginate_skip (log msg pg) Hle) as [msg' ->]. done.
  - pose proof (paginate_run pg Hgt) as Hpg. simpl in Hpg.
    assert (Hrows : rows (paginate pg)
              = showBlocks (collectBlocks (rows pg))
                  (ceil_div (Z.of_nat (length (collectBlocks (rows pg))))
                     POSTS_PER_PAGE - 1) (rows pg)).
    { by rewrite Hpg. }
    assert (Hblocks : collectBlocks (rows (paginate pg))
                      = collectBlocks (rows pg)).
    { rewrite Hrows. apply collectBlocks_showBlocks. }
    assert (Hgt' : (10 < length (collectBlocks (rows (paginate pg))))%nat).
    { by rewrite Hblocks. }
    rewrite (paginate_run (paginate pg) Hgt'). simpl. rewrite Hblocks.
    split.
    + rewrite Hrows at 1. rewrite showBlocks_idempotent. by rewrite Hrows.
    + by rewrite Hpg.
Qed.

Lemma last_filter_seq_intro (f : nat -> bool) n m :
  (m < n)%nat -> f m = true ->
  (forall i, (m < i < n)%nat -> f i = false) ->
  last (List.filter f (seq 0 n)) = Some m.
Proof.
  induction n as [|n IH]; intros Hm Hfm Hlater; [lia|].
  rewrite seq_S, List.filter_app. simpl.
  destruct (decide (m = n)) as [->|Hne].
  - rewrite Hfm. apply last_snoc.
  - rewrite (Hlater n) by lia. rewrite app_nil_r.
    apply IH; [lia|done|]. intros i Hi. apply Hlater. lia.
Qed.

Lemma last_filter_seq_elim (f : nat -> bool) n m :
  last (List.filter f (seq 0 n)) = Some m ->
  (m < n)%nat /\ f m = true /\ forall i, (m < i < n)%nat -> f i = false.
Proof.
  induction n as [|n IH]; intros H; [done|].
  rewrite seq_S, List.filter_app in H. simpl in H.
  destruct (f n) eqn:Hfn.
  - rewrite last_snoc in H. injection H as <-.
    split; [lia|]. split; [done|]. intros i Hi. lia.
  - rewrite app_nil_r in H. destruct (IH H) as (Hlt & Hfm & Hlater).
    split; [lia|]. split; [done|]. intros i Hi.
    destruct (decide (i = n)) as [->|Hne]; [done|]. apply Hlater. lia.
Qed.

Lemma elem_of_strays_at strays len g r :
  r ∈ strays_at strays len g
  <-> exists k s, r = Unlisted k /\ strays !! k = Some s
        /\ Nat.min (gap s) len = g /\ has_class "post" (stray s) = true.
Proof.
  unfold strays_at. rewrite list_elem_of_fmap. split.
  - intros (k & -> & Hin).
    apply list_elem_of_In, filter_In in Hin as [_ Hf].
    destruct (strays !! k) as [s|] eqn:Hk; [|done].
    apply andb_true_iff in Hf as [Hg Hp]. apply Nat.eqb_eq in Hg.
    by exists k, s.
  - intros (k & s & -> & Hk & Hg & Hp). exists k. split; [done|].
    apply list_elem_of_In, filter_In. split.
    + apply in_seq. apply lookup_lt_Some in Hk. lia.
    + rewrite Hk, Hp, andb_true_r. by apply Nat.eqb_eq.
Qed.

Lemma listed_at_row_at dom g :
  listed_at dom g
  = if row_at dom (has_class "post") g then [Listed g] else [].
Proof. unfold listed_at, row_at. by destruct (dom !! g). Qed.

(** Behind the last listed post row, [tr.post] finds strays only. *)
Lemma tr_post_split strays dom newest :
  (newest < length dom)%nat ->
  row_at dom (has_class "post") newest = true ->
  (forall i, (newest < i)%nat -> row_at dom (has_class "post") i = false) ->
  exists before behind,
    tr_post strays dom = before ++ [Listed newest] ++ behind
    /\ forall r, r ∈ behind
         <-> exists k s, r = Unlisted k /\ strays !! k = Some s
               /\ (newest < Nat.min (gap s) (length dom))%nat
               /\ has_class "post" (stray s) = true.
Proof.
  intros Hlt Hpost Hlater. unfold tr_post.
  set (row := fun g => strays_at strays (length dom) g ++ listed_at dom g).
  replace (S (length dom))
    with (newest + S (length dom - newest))%nat by lia.
  rewrite seq_app. simpl. rewrite fmap_app, concat_app. simpl.
  exists (concat (row <$> seq 0 newest) ++ strays_at strays (length dom) newest),
    (concat (row <$> seq (S newest) (length dom - newest))).
  split.
  { unfold row at 2. rewrite listed_at_row_at, Hpost.
    by rewrite <- !app_assoc. }
  intros r. rewrite list_elem_of_In, in_concat. split.
  - intros (l & Hl & Hr). apply list_elem_of_In, list_elem_of_fmap in Hl
      as (g & -> & Hg).
    apply list_elem_of_In, in_seq in Hg.
    unfold row in Hr. rewrite listed_at_row_at, Hlater, app_nil_r in Hr by lia.
    apply list_elem_of_In, elem_of_strays_at in Hr
      as (k & s & -> & Hk & Hmin & Hp).
    exists k, s. repeat split; [done|lia|done].
  - intros (k & s & -> & Hk & Hmin & Hp).
    exists (row (Nat.min (gap s) (length dom))). split.
    + apply list_elem_of_In, list_elem_of_fmap. eexists. split; [done|].
      apply list_elem_of_In, in_seq. lia.
    + apply list_elem_of_In. unfold row. apply elem_of_app. left.
      apply elem_of_strays_at. by exists k, s.
Qed.

Lemma filter_nil_iff {A} (f : A -> bool) l :
  List.filter f l = [] <-> forall x, x ∈ l -> f x = false.
Proof.
  induction l as [|a l IH]; simpl.
  - split; [|done]. intros _ x Hx. by apply elem_of_nil in Hx.
  - destruct (f a) eqn:Hfa.
    + split; [done|]. intros H. specialize (H a (list_elem_of_here _ _)).
      congruence.
    + rewrite IH. split.
      * intros H x Hx. apply elem_of_cons in Hx as [->|Hx]; auto.
      * intros H x Hx. apply H. by apply list_elem_of_further.
Qed.

(** X11.  On a table where the tests of the grouper agree with the class
    tokens and the units share no row, the scroll callback that [paginate]
    scheduled scrolls to the last post row of the grouper's list exactly
    when no visible [tr.post] elsewhere in the table comes after that
    row. *)
Theorem scroll_reaches_last_post (pg : Page) (strays : list Stray)
    (newest : nat) :
  Forall tests_agree (rows pg) ->
  (10 < length (collectBlocks (rows pg)))%nat ->
  NoDup (concat (collectBlocks (rows pg))) ->
  last (positions is_post (rows pg)) = Some newest ->
  scrolledTo (fire_scroll strays (paginate pg)) = Some (Listed newest)
  <-> forall k s, strays !! k = Some s ->
        has_class "post" (stray s) = true -> display (stray s) <> "none" ->
        (gap s <= newest)%nat.
Proof.
  intros Hagree Hgt Hnd Hnewest.
  set (blocks := collectBlocks (rows pg)) in *.
  set (total := ceil_div (Z.of_nat (length blocks)) POSTS_PER_PAGE).
  pose proof (paginate_run pg Hgt) as Hpg. simpl in Hpg.
  fold blocks total in Hpg.
  assert (Hrows : rows (paginate pg) = showBlocks blocks (total - 1) (rows pg))
    by (by rewrite Hpg).
  assert (Htimers : scrollTimers (paginate pg) = scrollTimers pg ++ [50%Z])
    by (by rewrite Hpg).
  destruct (last_filter_seq_elim _ _ _ Hnewest) as (Hlt & Hpost & Hlater).
  (* the newest post closes the last unit, which is on the last page *)
  assert (Hunit : exists j, blocks !! j = Some (unit_of (rows pg) newest)
                            /\ S j = length blocks).
  { apply last_Some in Hnewest as [l' Hl'].
    exists (length l'). unfold blocks.
    rewrite collectBlocks_lookup, collectBlocks_length, Hl'.
    rewrite length_app, list_lookup_middle by done. simpl. split; [done|lia]. }
  destruct Hunit as (j & Hj & HSj).
  assert (Hshown : display_at (rows (paginate pg)) newest = Some "").
  { rewrite Hrows.
    assert (Hne : Forall (fun b => b <> []) blocks)
      by apply collectBlocks_nonempty.
    assert (Hvalid : Forall (Forall (fun r => (r < length (rows pg))%nat))
                       blocks) by apply collectBlocks_valid.
    destruct (pager_claim_disjoint blocks (rows pg) (total - 1) Hnd Hne Hvalid
                j _ Hj) as [[_ Hshow] _].
    apply Hshow.
    - pose proof (ceil_div_bounds (Z.of_nat (length blocks))) as Hb.
      fold total in Hb. unfold on_page, POSTS_PER_PAGE. lia.
    - apply elem_of_unit_of. by left. }
  assert (Hclass : className <$> rows (paginate pg) = className <$> rows pg).
  { rewrite Hrows. apply show_loop_className. }
  assert (Htoken : forall i, row_at (rows (paginate pg)) (has_class "post") i
                             = row_at (rows pg) is_post i).
  { intros i. transitivity (row_at (rows pg) (has_class "post") i).
    - apply (row_at_className _ _ (ClassName.has_token "post") i Hclass).
    - by destruct (row_at_agree (rows pg) i Hagree) as [-> _]. }
  assert (Hlen : length (rows (paginate pg)) = length (rows pg)).
  { by rewrite Hrows, showBlocks_length. }
  set (dom := rows (paginate pg)) in *.
  destruct (tr_post_split strays dom newest) as (before & behind & Hsplit & Hbehind).
  { lia. }
  { by rewrite Htoken. }
  { intros i Hi. rewrite Htoken.
    destruct (decide (i < length (rows pg))%nat) as [Hin|Hout].
    - apply Hlater. lia.
    - unfold row_at. rewrite lookup_ge_None_2; [done|lia]. }
  set (vis := fun r => match post_display strays dom r with
                       | Some d => negb (String.eqb d "none")
                       | None => false
                       end).
  assert (Hvis : vis (Listed newest) = true).
  { unfold vis. simpl. fold (display_at dom newest). by rewrite Hshown. }
  assert (Hscroll : scrolledTo (fire_scroll strays (paginate pg))
                    = last (Listed newest :: List.filter vis behind)).
  { assert (Hlast : last (visible_posts strays dom)
                    = last (Listed newest :: List.filter vis behind)).
    { unfold visible_posts. fold vis. rewrite Hsplit.
      rewrite List.filter_app. simpl. rewrite Hvis. apply last_app_cons. }
    assert (Hsome : exists r, last (visible_posts strays dom) = Some r).
    { rewrite Hlast. destruct (List.filter vis behind) as [|y rest]; [by eexists|].
      change (last (Listed newest :: y :: rest)) with (last (y :: rest)).
      destruct (last (y :: rest)) eqn:Hl; [by eexists|].
      by apply last_None in Hl. }
    destruct Hsome as [r Hr]. rewrite <- Hlast, Hr.
    unfold fire_scroll. rewrite Htimers.
    destruct (scrollTimers pg); simpl; unfold scroll_last_visible; simpl;
      fold dom; by rewrite Hr. }
  rewrite Hscroll.
  assert (Hnone : List.filter vis behind = []
                  <-> forall k s, strays !! k = Some s ->
                        has_class "post" (stray s) = true ->
                        display (stray s) <> "none" -> (gap s <= newest)%nat).
  { rewrite filter_nil_iff. split.
    - intros H k s Hk Hp Hd.
      destruct (le_lt_dec (gap s) newest) as [|Hgap]; [done|]. exfalso.
      assert (Hin : Unlisted k ∈ behind).
      { apply Hbehind. exists k, s. repeat split; [done|lia|done]. }
      specialize (H _ Hin). unfold vis in H. simpl in H. rewrite Hk in H.
      simpl in H. apply negb_false_iff, String.eqb_eq in H. done.
    - intros H r Hr. apply Hbehind in Hr as (k & s & -> & Hk & Hgap & Hp).
      unfold vis. simpl. rewrite Hk. simpl.
      destruct (String.eqb_spec (display (stray s)) "none") as [|Hd]; [done|].
      specialize (H k s Hk Hp Hd). lia. }
  rewrite <- Hnone. split.
  - destruct (List.filter vis behind) as [|y rest] eqn:Hf; [done|].
    change (last (Listed newest :: y :: rest)) with (last (y :: rest)).
    intros Hl. apply last_Some_elem_of in Hl. rewrite <- Hf in Hl.
    apply list_elem_of_In, filter_In in Hl as [Hl _].
    apply list_elem_of_In, Hbehind in Hl as (k & s & Heq & _). done.
  - by intros ->.
Qed.

Lemma scroll_reaches_last_post_witness :
  last (positions is_post (rows twenty_five_posts)) = Some 24%nat
  /\ (scrolledTo
        (fire_scroll [mkStray 0 (mkRow "post" ""); mkStray 25 (mkRow "post" "none")]
           (paginate twenty_five_posts)) = Some (Listed 24)
      <-> forall k s,
            [mkStray 0 (mkRow "post" ""); mkStray 25 (mkRow "post" "none")] !! k
            = Some s ->
            has_class "post" (stray s) = true -> display (stray s) <> "none" ->
            (gap s <= 24)%nat).
Proof.
  assert (Hlast : last (positions is_post (rows twenty_five_posts))
                  = Some 24%nat) by reflexivity.
  split; [exact Hlast|].
  apply scroll_reaches_last_post.
  - apply Forall_forall. intros tr Htr.
    apply elem_of_replicate_inv in Htr. subst tr. split; reflexivity.
  - vm_compute. lia.
  - apply (bool_decide_unpack _). vm_compute. exact I.
  - exact Hlast.
Defined.

(** * Further properties of the controls widget *)

Lemma updateButtons_synced total cb base pg c cur :
  widget_synced total cb base pg -> widget pg = Some c ->
  (0 <= cur <= total - 1)%Z ->
  widget_synced total cb base (updateButtons c cur pg).
Proof.
  intros (c0 & calls & Hc0 & Ht & Hcb & _ & _ & Hcalls & Hrows & _) Hc Hcur.
  rewrite Hc in Hc0. injection Hc0 as <-.
  eexists _, (calls ++ [cur]). split; [reflexivity|]. simpl.
  split; [done|]. split; [done|]. split; [done|]. split; [by rewrite Ht|].
  split; [by rewrite Hcalls, app_assoc|]. split.
  - by rewrite fold_left_app, <- Hrows, Hcb.
  - by rewrite last_snoc.
Qed.

Lemma widget_step_synced total cb base pg op :
  (1 <= total)%Z ->
  widget_synced total cb base pg ->
  widget_synced total cb base (widget_step pg op).
Proof.
  intros Ht Hs. pose proof Hs as (c & calls & Hc & Htot & _ & Hcur & _).
  destruct op as [| |n]; simpl.
  - destruct (click_prev_cases pg c Hc) as [->|[Hpos ->]]; [done|].
    apply updateButtons_synced; [done..|lia].
  - destruct (click_next_cases pg c Hc) as [->|[Hpos ->]]; [done|].
    apply updateButtons_synced; [done..|lia].
  - unfold setPage. rewrite Hc. apply updateButtons_synced; [done..|].
    rewrite Htot. by apply clamp_page_range.
Qed.

(** X12.  Through every sequence of clicks and [setPage] calls on a widget
    of at least one page, the page stays within [0 .. totalPages - 1], the
    indicator reads "Page current+1 of totalPages", the page count and
    the callback stay those given to [createControls], the last page
    handed to the callback is the current page, and the rows are the
    result of the logged callback calls. *)
Theorem widget_stays_synced (total : Z) (cb : Z -> list Row -> list Row)
    (pg : Page) (ops : list WidgetOp) :
  (1 <= total)%Z ->
  widget_synced total cb pg (widget_run ops (createControls total cb pg)).
Proof.
  intros Ht.
  assert (H0 : widget_synced total cb pg (createControls total cb pg)).
  { eexists _, []. split; [reflexivity|]. simpl.
    split; [done|]. split; [done|]. split; [lia|]. split; [done|].
    split; [by rewrite app_nil_r|]. done. }
  revert H0. generalize (createControls total cb pg).
  induction ops as [|op ops IH]; intros pg0 H0; simpl; [done|].
  apply IH. by apply widget_step_synced.
Qed.

Lemma widget_stays_synced_witness :
  widget_synced 3 (showBlocks [[0%nat]]) blank_page
    (widget_run [ClickNext; SetPage 9; ClickPrev; ClickPrev; ClickPrev]
       (createControls 3 (showBlocks [[0%nat]]) blank_page)).
Proof. apply widget_stays_synced. lia. Defined.

Lemma next_click_step total pg c :
  widget pg = Some c -> totalPages c = total -> buttons_consistent c ->
  (0 <= current c <= total - 1)%Z ->
  (current c = (total - 1)%Z /\ clickNext pg = pg)
  \/ ((current c < total - 1)%Z
      /\ clickNext pg = updateButtons c (current c + 1) pg).
Proof.
  intros Hc Ht [_ Hnext] Hcur. subst total.
  destruct (Z.eq_dec (current c) (totalPages c - 1)%Z) as [Heq|Hne].
  - left. split; [done|]. unfold clickNext. rewrite Hc.
    by rewrite (proj2 Hnext Heq).
  - right. split; [lia|]. unfold clickNext, next_listener. rewrite Hc.
    destruct (nextDisabled c) eqn:Hd; [by destruct Hne; apply Hnext|].
    destruct (Z.ltb_spec (current c) (totalPages c - 1)); [done|lia].
Qed.

Lemma prev_click_step total pg c :
  widget pg = Some c -> totalPages c = total -> buttons_consistent c ->
  (0 <= current c <= total - 1)%Z ->
  (current c = 0%Z /\ clickPrev pg = pg)
  \/ ((0 < current c)%Z
      /\ clickPrev pg = updateButtons c (current c - 1) pg).
Proof.
  intros Hc Ht [Hprev _] Hcur.
  destruct (Z.eq_dec (current c) 0%Z) as [Heq|Hne].
  - left. split; [done|]. unfold clickPrev. rewrite Hc.
    by rewrite (proj2 Hprev Heq).
  - right. split; [lia|]. unfold clickPrev, prev_listener. rewrite Hc.
    destruct (prevDisabled c) eqn:Hd; [by destruct Hne; apply Hprev|].
    destruct (Z.gtb_spec (current c) 0); [done|lia].
Qed.

(** X13.  On a consistent widget, [n] clicks on Next advance the page by
    [n], stopping at the last page; the callback runs once for each page
    passed, in order, and not at all once the last page is reached. *)
Theorem next_clicks_advance (total : Z) (pg : Page) (c : Controls) (n : nat) :
  widget pg = Some c -> totalPages c = total -> buttons_consistent c ->
  (0 <= current c <= total - 1)%Z ->
  let target := Z.min (current c + Z.of_nat n) (total - 1) in
  (current <$> widget (Nat.iter n clickNext pg)) = Some target
  /\ onPageCalls (Nat.iter n clickNext pg)
     = onPageCalls pg
       ++ ((fun k => current c + k)%Z <$> seqZ 1 (target - current c)).
Proof.
  intros Hc Ht Hb Hcur.
  assert (Hinv : widget_ok total (Nat.iter n clickNext pg)
                 /\ (current <$> widget (Nat.iter n clickNext pg))
                    = Some (Z.min (current c + Z.of_nat n) (total - 1))
                 /\ onPageCalls (Nat.iter n clickNext pg)
                    = onPageCalls pg
                      ++ ((fun k => current c + k)%Z
                            <$> seqZ 1 (Z.min (current c + Z.of_nat n)
                                          (total - 1) - current c))).
  { induction n as [|n IH].
    - simpl. split; [by exists c|].
      rewrite Z.add_0_r, Z.min_l by lia. rewrite Hc, Z.sub_diag. simpl.
      by rewrite app_nil_r.
    - destruct IH as ((cn & Hcn & Htn & Hrange & Hbn) & Hcurn & Hcalls).
      change (Nat.iter (S n) clickNext pg)
        with (clickNext (Nat.iter n clickNext pg)).
      rewrite Hcn in Hcurn. simpl in Hcurn. injection Hcurn as Hcurn.
      destruct (next_click_step total _ cn Hcn Htn Hbn Hrange)
        as [[Hlast ->]|[Hmore ->]].
      + split; [by exists cn|]. rewrite Hcn. simpl.
        rewrite Hcalls. rewrite !Z.min_r by lia. rewrite Z.min_r in Hcurn by lia.
        by rewrite Hcurn.
      + split; [rewrite <- Htn; apply updateButtons_ok; lia|]. simpl.
        rewrite Z.min_l in Hcurn by lia.
        rewrite Z.min_l in Hcalls by lia.
        rewrite Z.min_l by lia. split; [f_equal; lia|].
        rewrite Hcalls, <- app_assoc. f_equal.
        replace (current c + Z.of_nat (S n) - current c)%Z
          with (Z.of_nat n + 1)%Z by lia.
        replace (current c + Z.of_nat n - current c)%Z
          with (Z.of_nat n) by lia.
        rewrite seqZ_app, fmap_app by lia. f_equal. simpl.
        rewrite Hcurn. f_equal. lia. }
  split; apply Hinv.
Qed.

Lemma next_clicks_advance_witness :
  let pg := setPage 0 (createControls 3 no_callback blank_page) in
  (current <$> widget (Nat.iter 5 clickNext pg)) = Some 2%Z
  /\ onPageCalls (Nat.iter 5 clickNext pg) = [0; 1; 2]%Z.
Proof.
  intros pg.
  destruct (next_clicks_advance 3 pg
              (mkControls 3 no_callback true false "Page 1 of 3" 0) 5
              eq_refl eq_refl) as [Hcur Hcalls].
  - split; split; simpl; intros H; try done; lia.
  - simpl. lia.
  - split; [exact Hcur|exact Hcalls].
Defined.

(** X14.  On a consistent widget, [n] clicks on Previous go back [n]
    pages, stopping at page 0; the callback runs once for each page
    passed, in order, and not at all once page 0 is reached. *)
Theorem prev_clicks_go_back (total : Z) (pg : Page) (c : Controls) (n : nat) :
  widget pg = Some c -> totalPages c = total -> buttons_consistent c ->
  (0 <= current c <= total - 1)%Z ->
  let target := Z.max (current c - Z.of_nat n) 0 in
  (current <$> widget (Nat.iter n clickPrev pg)) = Some target
  /\ onPageCalls (Nat.iter n clickPrev pg)
     = onPageCalls pg
       ++ ((fun k => current c - k)%Z <$> seqZ 1 (current c - target)).
Proof.
  intros Hc Ht Hb Hcur.
  assert (Hinv : widget_ok total (Nat.iter n clickPrev pg)
                 /\ (current <$> widget (Nat.iter n clickPrev pg))
                    = Some (Z.max (current c - Z.of_nat n) 0)
                 /\ onPageCalls (Nat.iter n clickPrev pg)
                    = onPageCalls pg
                      ++ ((fun k => current c - k)%Z
                            <$> seqZ 1 (current c
                                        - Z.max (current c - Z.of_nat n) 0))).
  { induction n as [|n IH].
    - simpl. split; [by exists c|].
      rewrite Z.sub_0_r, Z.max_l by lia. rewrite Hc, Z.sub_diag. simpl.
      by rewrite app_nil_r.
    - destruct IH as ((cn & Hcn & Htn & Hrange & Hbn) & Hcurn & Hcalls).
      change (Nat.iter (S n) clickPrev pg)
        with (clickPrev (Nat.iter n clickPrev pg)).
      rewrite Hcn in Hcurn. simpl in Hcurn. injection Hcurn as Hcurn.
      destruct (prev_click_step total _ cn Hcn Htn Hbn Hrange)
        as [[Hfirst ->]|[Hmore ->]].
      + split; [by exists cn|]. rewrite Hcn. simpl.
        rewrite Hcalls. rewrite !Z.max_r by lia. rewrite Z.max_r in Hcurn by lia.
        by rewrite Hcurn.
      + split; [rewrite <- Htn; apply updateButtons_ok; lia|]. simpl.
        rewrite Z.max_l in Hcurn by lia.
        rewrite Z.max_l in Hcalls by lia.
        rewrite Z.max_l by lia. split; [f_equal; lia|].
        rewrite Hcalls, <- app_assoc. f_equal.
        replace (current c - (current c - Z.of_nat (S n)))%Z
          with (Z.of_nat n + 1)%Z by lia.
        replace (current c - (current c - Z.of_nat n))%Z
          with (Z.of_nat n) by lia.
        rewrite seqZ_app, fmap_app by lia. f_equal. simpl.
        rewrite Hcurn. f_equal. lia. }
  split; apply Hinv.
Qed.

Lemma prev_clicks_go_back_witness :
  let pg := setPage 2 (createControls 3 no_callback blank_page) in
  (current <$> widget (Nat.iter 4 clickPrev pg)) = Some 0%Z
  /\ onPageCalls (Nat.iter 4 clickPrev pg) = [2; 1; 0]%Z.
Proof.
  intros pg.
  destruct (prev_clicks_go_back 3 pg
              (mkControls 3 no_callback false true "Page 3 of 3" 2) 4
              eq_refl eq_refl) as [Hcur Hcalls].
  - split; split; simpl; intros H; try done; lia.
  - simpl. lia.
  - split; [exact Hcur|exact Hcalls].
Defined.

(** * The expand link *)

Module SeeAllFacts.
Import SeeAll.

Lemma strip_by_app eqc pat m rest :
  Forall2 (fun c p => eqc c p = true) m pat ->
  strip_by eqc pat (m ++ rest) = Some rest.
Proof.
  intros H. induction H as [|c p m pat Hcp _ IH]; simpl; [by destruct rest|].
  by rewrite Hcp.
Qed.

Lemma strip_by_inv eqc pat s rest :
  strip_by eqc pat s = Some rest ->
  exists m, s = m ++ rest /\ Forall2 (fun c p => eqc c p = true) m pat.
Proof.
  revert s. induction pat as [|p pat IH]; intros s H.
  - exists []. destruct s; simpl in H; injection H as <-; by split.
  - destruct s as [|c s]; [done|]. simpl in H.
    destruct (eqc c p) eqn:Hcp; [|done].
    destruct (IH s H) as (m & -> & Hm). exists (c :: m). split; [done|].
    by constructor.
Qed.

Lemma drop_while_inv f s :
  exists run, s = run ++ drop_while f s
    /\ Forall (fun c => f c = true) run
    /\ match drop_while f s with c :: _ => f c = false | [] => True end.
Proof.
  induction s as [|c s (run & Hs & Hrun & Hhead)]; [by exists []|]. simpl.
  destruct (f c) eqn:Hfc.
  - exists (c :: run). split; [by rewrite Hs at 1|]. split; [by constructor|done].
  - exists []. split; [done|]. split; [constructor|done].
Qed.

Lemma drop_while_app f run rest :
  Forall (fun c => f c = true) run ->
  match rest with c :: _ => f c = false | [] => True end ->
  drop_while f (run ++ rest) = rest.
Proof.
  intros Hrun Hrest. induction Hrun as [|c run Hc _ IH]; simpl.
  - destruct rest as [|c rest]; [done|]. simpl. by rewrite Hrest.
  - by rewrite Hc.
Qed.

Lemma search_spec here s :
  search here s = true <-> exists pre t, s = pre ++ t /\ here t = true.
Proof.
  split.
  - induction s as [|c s IH]; simpl; intros H.
    + rewrite orb_false_r in H. by exists [], [].
    + apply orb_true_iff in H as [H|H]; [by exists [], (c :: s)|].
      destruct (IH H) as (pre & t & -> & Ht). by exists (c :: pre), t.
  - intros (pre & t & -> & Ht). induction pre as [|c pre IH]; simpl.
    + destruct t; simpl; by rewrite Ht.
    + rewrite IH. apply orb_true_r.
Qed.

Lemma same_letter_inv c p :
  same_letter c p = true ->
  c = p \/ c = (p + 32)%N \/ (c + 32)%N = p.
Proof.
  unfold same_letter, ascii_upper. intros H%N.eqb_eq.
  destruct ((97 <=? c)%N && (c <=? 122)%N) eqn:Hc,
           ((97 <=? p)%N && (p <=? 122)%N) eqn:Hp;
    try (apply andb_true_iff in Hc as [Hc1%N.leb_le Hc2%N.leb_le]);
    try (apply andb_true_iff in Hp as [Hp1%N.leb_le Hp2%N.leb_le]); lia.
Qed.

Lemma code_units_see_all :
  code_units "See all " = [83; 101; 101; 32; 97; 108; 108; 32]%N.
Proof. reflexivity. Qed.

Lemma code_units_posts :
  code_units " posts" = [32; 112; 111; 115; 116; 115]%N.
Proof. reflexivity. Qed.

Lemma code_units_show_all :
  code_units "showAllPosts"
  = [115; 104; 111; 119; 65; 108; 108; 80; 111; 115; 116; 115]%N.
Proof. reflexivity. Qed.

(** The executable test at one position finds exactly the matches. *)
Lemma see_all_here_spec s :
  see_all_here s = true <-> exists m rest, s = m ++ rest /\ see_all_match m.
Proof.
  unfold see_all_here. split.
  - destruct (strip_by same_letter (code_units "See all ") s)
      as [[|d rest]|] eqn:Ha; [done| |done].
    intros [Hd Hb]%andb_true_iff.
    destruct (strip_by same_letter (code_units " posts")
                (drop_while is_digit rest)) as [post|] eqn:Hposts; [|done].
    apply strip_by_inv in Ha as (a & -> & Ha).
    apply strip_by_inv in Hposts as (b & Hdrop & Hbm).
    destruct (drop_while_inv is_digit rest) as (run & Hrest & Hrun & _).
    rewrite Hdrop in Hrest.
    exists (a ++ (d :: run) ++ b), post. split.
    + rewrite Hrest. by rewrite <- !app_assoc.
    + exists a, (d :: run), b. split; [done|]. split; [done|].
      split; [done|]. split; [by constructor|done].
  - intros (m & rest & -> & a & ds & b & -> & Ha & Hne & Hds & Hb).
    rewrite <- !app_assoc, (strip_by_app _ _ a _ Ha).
    destruct ds as [|d ds]; [done|]. rewrite <- app_comm_cons.
    apply Forall_cons in Hds as [Hd Hds]. rewrite Hd, andb_true_l.
    rewrite drop_while_app, (strip_by_app _ _ b _ Hb); [done..|].
    rewrite code_units_posts in Hb.
    destruct b as [|c b]; [by apply Forall2_nil_cons_inv in Hb|]. simpl.
    apply Forall2_cons in Hb as [Hc _].
    apply same_letter_inv in Hc as [->|[->| Hc]]; [done..|].
    assert (c = 0%N) as -> by lia. done.
Qed.

Lemma show_all_here_spec s :
  show_all_here s = true <-> exists m rest, s = m ++ rest /\ show_all_match m.
Proof.
  unfold show_all_here. split.
  - destruct (strip_by N.eqb (code_units "showAllPosts") s) as [rest|] eqn:Ha;
      [|done].
    apply strip_by_inv in Ha as (a & -> & Ha).
    assert (a = code_units "showAllPosts") as ->.
    { clear -Ha. induction Ha as [|c p a pat Hcp%N.eqb_eq _ IH]; [done|].
      by rewrite Hcp, IH. }
    destruct (drop_while_inv is_white_space rest) as (ws & Hrest & Hws & _).
    destruct (drop_while is_white_space rest) as [|c post]; [done|].
    intros ->%N.eqb_eq.
    exists (code_units "showAllPosts" ++ ws ++ [40%N]), post. split.
    + rewrite Hrest. by rewrite <- !app_assoc.
    + by exists ws.
  - intros (m & rest & -> & ws & -> & Hws).
    rewrite <- !app_assoc. rewrite strip_by_app.
    + rewrite drop_while_app; [done..|]. done.
    + clear. induction (code_units "showAllPosts"); constructor; [|done].
      apply N.eqb_refl.
Qed.

Lemma see_all_match_head m :
  see_all_match m -> exists c m', m = c :: m' /\ is_white_space c = false.
Proof.
  intros (a & ds & b & -> & Ha & _). rewrite code_units_see_all in Ha.
  apply Forall2_cons_inv_r in Ha as (c & a' & Hc & _ & ->).
  exists c, (a' ++ ds ++ b). split; [done|].
  apply same_letter_inv in Hc as [->|[->|Hc]]; [done..|].
  assert (c = 51%N) as -> by lia. done.
Qed.

Lemma see_all_match_last m :
  see_all_match m -> exists m' c, m = m' ++ [c] /\ is_white_space c = false.
Proof.
  intros (a & ds & b & -> & _ & _ & _ & Hb).
  change (code_units " posts")
    with ([32; 112; 111; 115; 116]%N ++ [115%N]) in Hb.
  apply Forall2_app_inv_r in Hb as (b1 & b2 & _ & Hb2 & ->).
  apply Forall2_cons_inv_r in Hb2 as (c & b2' & Hc & Hnil & ->).
  apply Forall2_nil_inv_r in Hnil as ->.
  exists (a ++ ds ++ b1), c. split; [by rewrite <- !app_assoc|].
  apply same_letter_inv in Hc as [->|[->|Hc]]; [done..|].
  assert (c = 83%N) as -> by lia. done.
Qed.

Lemma see_all_here_ws c s :
  is_white_space c = true -> see_all_here (c :: s) = false.
Proof.
  intros Hc. apply not_true_is_false. intros H.
  apply see_all_here_spec in H as (m & rest & Hs & Hm).
  destruct (see_all_match_head m Hm) as (c' & m' & -> & Hc').
  injection Hs as -> _. congruence.
Qed.

Lemma see_all_test_ws_l run s :
  Forall (fun c => is_white_space c = true) run ->
  see_all_test (run ++ s) = see_all_test s.
Proof.
  intros Hrun. induction Hrun as [|c run Hc _ IH]; [done|].
  change (see_all_test ((c :: run) ++ s))
    with (see_all_here (c :: run ++ s) || see_all_test (run ++ s)).
  by rewrite see_all_here_ws, IH.
Qed.

Lemma see_all_here_ws_r t run :
  Forall (fun c => is_white_space c = true) run ->
  see_all_here (t ++ run) = see_all_here t.
Proof.
  intros Hrun. apply eq_true_iff_eq. rewrite !see_all_here_spec. split.
  - intros (m & rest & Heq & Hm).
    destruct (see_all_match_last m Hm) as (m' & c & -> & Hc).
    apply app_eq_app in Heq as [l [[-> ->]|[Hm' ->]]].
    + by exists (m' ++ [c]), l.
    + destruct l as [|x l _] using rev_ind.
      * rewrite app_nil_r in Hm'. subst t. exists (m' ++ [c]), [].
        by rewrite app_nil_r.
      * rewrite app_assoc in Hm'. apply app_inj_tail in Hm' as [_ ->].
        rewrite !Forall_app, Forall_singleton in Hrun.
        destruct Hrun as [[_ Hx] _]. congruence.
  - intros (m & rest & -> & Hm). exists m, (rest ++ run).
    by rewrite app_assoc.
Qed.

Lemma see_all_test_ws_r s run :
  Forall (fun c => is_white_space c = true) run ->
  see_all_test (s ++ run) = see_all_test s.
Proof.
  intros Hrun. induction s as [|c s IH].
  - simpl. rewrite <- (app_nil_r run). by apply see_all_test_ws_l.
  - change (see_all_test ((c :: s) ++ run))
      with (see_all_here ((c :: s) ++ run) || see_all_test (s ++ run)).
    by rewrite see_all_here_ws_r, IH.
Qed.

Lemma trim_margins s :
  exists left right,
    s = left ++ trim s ++ right
    /\ Forall (fun c => is_white_space c = true) left
    /\ Forall (fun c => is_white_space c = true) right.
Proof.
  destruct (drop_while_inv is_white_space s) as (left & Hs & Hleft & _).
  destruct (drop_while_inv is_white_space
              (reverse (drop_while is_white_space s)))
    as (rrun & Hr & Hrrun & _).
  exists left, (reverse rrun). split; [|split; [done|by apply Forall_reverse]].
  rewrite Hs at 1. f_equal. unfold trim.
  rewrite <- reverse_app, <- Hr. by rewrite reverse_involutive.
Qed.

Lemma see_all_test_trim s : see_all_test (trim s) = see_all_test s.
Proof.
  destruct (trim_margins s) as (left & right & Hs & Hleft & Hright).
  rewrite Hs at 2. by rewrite see_all_test_ws_l, see_all_test_ws_r.
Qed.

Lemma find_from_spec i anchors :
  match find_from i anchors with
  | Some r =>
      exists k a, r = (i + k)%nat /\ anchors !! k = Some a
        /\ is_expand_link a = true
        /\ forall k' a', (k' < k)%nat -> anchors !! k' = Some a' ->
             is_expand_link a' = false
  | None => Forall (fun a => is_expand_link a = false) anchors
  end.
Proof.
  revert i. induction anchors as [|a rest IH]; intros i; simpl; [done|].
  rewrite see_all_test_trim.
  destruct (see_all_test (textContent a)) eqn:Htext.
  { exists 0%nat, a. split; [lia|]. split; [done|].
    split; [unfold is_expand_link; by rewrite Htext|]. intros; lia. }
  destruct (show_all_test (default [] (onclick a))) eqn:Hclick.
  { exists 0%nat, a. split; [lia|]. split; [done|].
    split; [unfold is_expand_link; by rewrite Htext, Hclick|]. intros; lia. }
  assert (Ha : is_expand_link a = false).
  { unfold is_expand_link. by rewrite Htext, Hclick. }
  specialize (IH (S i)). destruct (find_from (S i) rest) as [r|].
  - destruct IH as (k & a' & -> & Hk & Hlink & Hfirst).
    exists (S k), a'. split; [lia|]. split; [done|]. split; [done|].
    intros [|k'] a'' Hlt Hk'; simpl in Hk'; [by injection Hk' as <-|].
    apply (Hfirst k'); [lia|done].
  - by constructor.
Qed.

(** X15.  [findSeeAllLink] returns the first anchor, in document order,
    whose text contains "See all N posts" (any letter case) or whose
    [onclick] calls [showAllPosts(]; white space around the text plays no
    role.  It returns nothing exactly when the table is missing or no
    anchor passes either test. *)
Theorem findSeeAllLink_first (postsTable : option (list Anchor)) :
  (forall i, findSeeAllLink postsTable = Some i <->
     exists anchors a, postsTable = Some anchors /\ anchors !! i = Some a
       /\ is_expand_link a = true
       /\ forall k a', (k < i)%nat -> anchors !! k = Some a' ->
            is_expand_link a' = false)
  /\ (findSeeAllLink postsTable = None <->
      forall anchors, postsTable = Some anchors ->
        Forall (fun a => is_expand_link a = false) anchors).
Proof.
  destruct postsTable as [anchors|]; simpl.
  2:{ split; [|by split]. intros i. split; [done|].
      by intros (anchors & a & Hno & _). }
  pose proof (find_from_spec 0 anchors) as Hspec.
  destruct (find_from 0 anchors) as [r|].
  - destruct Hspec as (k & a & -> & Hk & Hlink & Hfirst). simpl. split.
    + intros i. split.
      * intros [= <-]. by exists anchors, a.
      * intros (anchors' & a' & [= <-] & Hi & Hlink' & Hfirst').
        f_equal. destruct (lt_eq_lt_dec k i) as [[Hlt|Heq]|Hgt]; [|done|].
        -- rewrite (Hfirst' k a Hlt Hk) in Hlink. done.
        -- rewrite (Hfirst i a' Hgt Hi) in Hlink'. done.
    + split; [done|]. intros Hall. specialize (Hall anchors eq_refl).
      rewrite Forall_forall in Hall.
      rewrite (Hall a (list_elem_of_lookup_2 _ _ _ Hk)) in Hlink. done.
  - split.
    + intros i. split; [done|].
      intros (anchors' & a & [= <-] & Hi & Hlink & _).
      rewrite Forall_forall in Hspec.
      rewrite (Hspec a (list_elem_of_lookup_2 _ _ _ Hi)) in Hlink. done.
    + split; [|done]. by intros _ anchors' [= <-].
Qed.

(** X16.  The text test accepts a text exactly when, somewhere in it, the
    letters of "See all " in any case are followed by at least one digit
    and then by the letters of " posts" in any case. *)
Theorem see_all_test_matches (s : list N) :
  see_all_test s = true
  <-> exists pre m post, s = pre ++ m ++ post /\ see_all_match m.
Proof.
  unfold see_all_test. rewrite search_spec. split.
  - intros (pre & t & -> & (m & post & -> & Hm)%see_all_here_spec).
    by exists pre, m, post.
  - intros (pre & m & post & -> & Hm). exists pre, (m ++ post).
    split; [done|]. apply see_all_here_spec. by exists m, post.
Qed.

(** X17.  The [onclick] test accepts an attribute exactly when it
    contains [showAllPosts], in that case, then any white space, then an
    opening parenthesis. *)
Theorem show_all_test_matches (s : list N) :
  show_all_test s = true
  <-> exists pre m post, s = pre ++ m ++ post /\ show_all_match m.
Proof.
  unfold show_all_test. rewrite search_spec. split.
  - intros (pre & t & -> & (m & post & -> & Hm)%show_all_here_spec).
    by exists pre, m, post.
  - intros (pre & m & post & -> & Hm). exists pre, (m ++ post).
    split; [done|]. apply show_all_here_spec. by exists m, post.
Qed.

(** X18.  White space around a text never changes the outcome of the text
    test, so neither does [trim]. *)
Theorem see_all_test_margins (s left right : list N) :
  Forall (fun c => is_white_space c = true) left ->
  Forall (fun c => is_white_space c = true) right ->
  see_all_test (left ++ s ++ right) = see_all_test s
  /\ see_all_test (trim (left ++ s ++ right)) = see_all_test s.
Proof.
  intros Hleft Hright.
  assert (H : see_all_test (left ++ s ++ right) = see_all_test s).
  { by rewrite see_all_test_ws_l, see_all_test_ws_r. }
  split; [done|]. by rewrite see_all_test_trim.
Qed.

Lemma see_all_test_margins_witness :
  see_all_test
    (trim (code_units "  " ++ code_units "see ALL 12 Posts..." ++ [160%N]))
  = see_all_test (code_units "see ALL 12 Posts...")
  /\ see_all_test (code_units "see ALL 12 Posts...") = true
  /\ see_all_test (code_units "See all posts") = false.
Proof.
  split; [|split; reflexivity].
  apply (see_all_test_margins (code_units "see ALL 12 Posts...")
           (code_units "  ") [160%N]).
  - repeat constructor.
  - repeat constructor.
Defined.

End SeeAllFacts.

(** ** The orchestrator *)

Module OrchestratorFacts.
Import Orchestrator.

#[local] Arguments Watcher.step : simpl never.

Lemma run_snoc s trace e : run s (trace ++ [e]) = step (run s trace) e.
Proof. unfold run. by rewrite fold_left_app. Qed.

Lemma run_app s before after :
  run s (before ++ after) = run (run s before) after.
Proof. unfold run. by rewrite fold_left_app. Qed.

(** The watcher of a session sees the events of the session that are its
    own. *)
Lemma step_watcher s e :
  watcher (step s e)
  = match watcher_event e with
    | Some we => (fun w => Watcher.step w we) <$> watcher s
    | None => watcher s
    end.
Proof.
  destruct e as [rows' others now|now1 now2| | |]; try done.
  unfold step, watcher_event.
  destruct (watcher s) as [w|] eqn:Hw; [|by rewrite Hw].
  destruct (Watcher.promise w);
    by destruct (Watcher.promise (Watcher.step w (Watcher.Timer now1 now2))).
Qed.

Lemma run_watcher trace : forall s,
  watcher (run s trace)
  = (fun w => Watcher.run w (omap watcher_event trace)) <$> watcher s.
Proof.
  induction trace as [|e trace IH]; intros s.
  - change (run s []) with s. by destruct (watcher s).
  - change (run s (e :: trace)) with (run (step s e) trace).
    rewrite IH, step_watcher. simpl.
    destruct (watcher_event e) as [we|]; [|done].
    by destruct (watcher s).
Qed.

Lemma through_step s e : through s -> through (step s e).
Proof.
  intros (w & Hw & Hs & Hn).
  destruct e as [rows' others now|now1 now2| | |]; simpl.
  - exists w. simpl. rewrite Hw. simpl.
    by rewrite (WatcherFacts.settled_step w _ Hs).
  - rewrite Hw. rewrite (WatcherFacts.settled_step w _ Hs).
    destruct Hs as (Hp & Hrest). rewrite Hp.
    exists w. simpl. split; [done|]. split; [|done]. by split.
  - by exists w.
  - by exists w.
  - by exists w.
Qed.

Lemma through_run trace : forall s, through s -> through (run s trace).
Proof.
  induction trace as [|e trace IH]; intros s H; [done|].
  apply (IH (step s e)). by apply through_step.
Qed.

(** One event on a session on hold with an untouched page: only a poll
    that finds the table quiet or the time up takes it through, and then
    [paginate] gets the page as it stands. *)
Lemma hold_step calls con s e :
  on_hold s -> untouched calls con s ->
  (on_hold (step s e) /\ untouched calls con (step s e))
  \/ (through (step s e)
      /\ (exists now1 now2, e = Timer now1 now2)
      /\ page (step s e) = paginate (page s)).
Proof.
  intros (w & Hw & Hwait & Hn) (Hwid & Hcalls & Hcon & Hcount).
  destruct e as [rows' others now|now1 now2| | |]; simpl.
  - left. destruct (WatcherFacts.mutation_waiting w (post_count others rows') now Hwait)
      as (Hwait' & _).
    split.
    + eexists. simpl. rewrite Hw. simpl. done.
    + repeat split; simpl; try done.
      intros w'. rewrite Hw. simpl. intros [= <-].
      destruct Hwait as (_ & Ho & _). unfold Watcher.step. rewrite Ho.
      unfold Watcher.on_mutation.
      destruct (Z.eqb_spec (post_count others rows') (Watcher.lastCount w)); simpl;
        congruence.
  - rewrite Hw.
    destruct (WatcherFacts.timer_waiting w now1 now2 Hwait)
      as [[_ Hs]|(_ & Hwait' & _)].
    + right. destruct Hwait as (Hp & _). rewrite Hp.
      pose proof Hs as (Hp' & _). rewrite Hp'.
      split; [|split; [by eexists _, _|done]].
      eexists. simpl. split; [done|]. split; [done|]. by rewrite Hn.
    + left. destruct Hwait as (Hp & _ & Ht & _). rewrite Hp.
      pose proof Hwait' as (Hp' & _). rewrite Hp'.
      split.
      * eexists. simpl. done.
      * repeat split; simpl; try done.
        intros w' [= <-]. unfold Watcher.step in *. rewrite Ht in *.
        unfold Watcher.check in *. simpl in *.
        clear Hwait'.
        destruct (_ >? 300)%Z; [simpl in Hp'; by rewrite Hp in Hp'|].
        destruct (_ >? Watcher.timeout w)%Z;
          [simpl in Hp'; by rewrite Hp in Hp'|].
        simpl. by apply Hcount.
  - left. split; [by exists w|].
    unfold untouched, on_page_only, clickPrev. simpl. by rewrite Hwid.
  - left. split; [by exists w|].
    unfold untouched, on_page_only, clickNext. simpl. by rewrite Hwid.
  - left. split; [by exists w|].
    unfold untouched, on_page_only, fire_scroll, scroll_last_visible. simpl.
    destruct (scrollTimers (page s)); [done|]. simpl.
    by destruct (last _).
Qed.

Lemma phase_step s e :
  on_hold s \/ through s -> on_hold (step s e) \/ through (step s e).
Proof.
  intros [(w & Hw & Hwait & Hn)|H]; [|right; by apply through_step].
  destruct e as [rows' others now|now1 now2| | |]; simpl.
  - left. destruct (WatcherFacts.mutation_waiting w (post_count others rows') now Hwait)
      as (Hwait' & _).
    eexists. simpl. rewrite Hw. simpl. done.
  - rewrite Hw.
    destruct (WatcherFacts.timer_waiting w now1 now2 Hwait)
      as [[_ Hs]|(_ & Hwait' & _)].
    + right. destruct Hwait as (Hp & _). rewrite Hp.
      pose proof Hs as (Hp' & _). rewrite Hp'.
      eexists. simpl. split; [done|]. split; [done|]. by rewrite Hn.
    + left. destruct Hwait as (Hp & _). rewrite Hp.
      pose proof Hwait' as (Hp' & _). rewrite Hp'.
      eexists. simpl. done.
  - left. by exists w.
  - left. by exists w.
  - left. by exists w.
Qed.

Lemma phase_run trace : forall s,
  on_hold s \/ through s -> on_hold (run s trace) \/ through (run s trace).
Proof.
  induction trace as [|e trace IH]; intros s H; [done|].
  apply (IH (step s e)). by apply phase_step.
Qed.

Lemma phase_runPagination t0 t1 t2 t3 s :
  paginations s = 0%nat ->
  on_hold (runPagination t0 t1 t2 t3 s)
  \/ through (runPagination t0 t1 t2 t3 s).
Proof.
  intros Hn. unfold runPagination.
  destruct (WatcherFacts.executor_invariant
              (post_count (strays s) (rows (page s))) None t0 t1 t2 t3)
    as (_ & _ & [Hs|[Hwait _]]).
  - right. pose proof Hs as (Hp & _). rewrite Hp.
    eexists. simpl. split; [done|]. split; [done|]. by rewrite Hn.
  - left. pose proof Hwait as (Hp & _). rewrite Hp.
    eexists. simpl. done.
Qed.

Lemma init_unfold host anchors others t0 t1 t2 t3 pg :
  init host (Some anchors) others t0 t1 t2 t3 pg
  = runPagination t0 t1 t2 t3
      (mkSession (after_click host (Some anchors) others pg)
         (strays_after_click host (Some anchors) others pg)
         (match SeeAll.findSeeAllLink (Some anchors) with
          | Some seeAll => [seeAll]
          | None => []
          end) None 0).
Proof.
  unfold init, after_click, strays_after_click.
  by destruct (SeeAll.findSeeAllLink (Some anchors)).
Qed.

Lemma phase_init host anchors others t0 t1 t2 t3 pg :
  on_hold (init host (Some anchors) others t0 t1 t2 t3 pg)
  \/ through (init host (Some anchors) others t0 t1 t2 t3 pg).
Proof. rewrite init_unfold. by apply phase_runPagination. Qed.

Lemma step_clicked s e : clicked (step s e) = clicked s.
Proof.
  destruct e as [rows' others now|now1 now2| | |]; try done.
  unfold step.
  destruct (watcher s) as [w|]; [|done].
  destruct (Watcher.promise w);
    by destruct (Watcher.promise (Watcher.step w (Watcher.Timer now1 now2))).
Qed.

Lemma run_clicked trace : forall s, clicked (run s trace) = clicked s.
Proof.
  induction trace as [|e trace IH]; intros s; [done|].
  change (run s (e :: trace)) with (run (step s e) trace).
  by rewrite IH, step_clicked.
Qed.

Lemma hold_run calls con trace : forall s,
  on_hold s -> untouched calls con s ->
  (on_hold (run s trace) /\ untouched calls con (run s trace))
  \/ (through (run s trace)
      /\ exists before now1 now2 after,
           trace = before ++ Timer now1 now2 :: after
           /\ on_hold (run s before)
           /\ untouched calls con (run s before)
           /\ page (run s (before ++ [Timer now1 now2]))
              = paginate (page (run s before))).
Proof.
  induction trace as [|e trace IH] using rev_ind; intros s Hh Hu.
  { left. done. }
  rewrite run_snoc.
  destruct (IH s Hh Hu) as [[Hh' Hu']|[Ht Hsplit]].
  - destruct (hold_step calls con (run s trace) e Hh' Hu')
      as [?|(Ht & (now1 & now2 & ->) & Hpage)]; [by left|].
    right. split; [done|]. exists trace, now1, now2, [].
    split; [done|]. split; [done|]. split; [done|]. by rewrite run_snoc.
  - right. split; [by apply through_step|].
    destruct Hsplit as (before & now1 & now2 & after & -> & Hrest).
    exists before, now1, now2, (after ++ [e]).
    split; [|done]. by rewrite <- app_assoc.
Qed.

Lemma hold_not_through s : on_hold s -> through s -> False.
Proof.
  intros (w & Hw & _ & Hn) (w' & Hw' & _ & Hn'). congruence.
Qed.

Lemma untouched_runPagination calls con t0 t1 t2 t3 s :
  widget (page s) = None -> onPageCalls (page s) = calls ->
  console (page s) = con ->
  on_hold (runPagination t0 t1 t2 t3 s) ->
  untouched calls con (runPagination t0 t1 t2 t3 s).
Proof.
  intros Hwid Hcalls Hcon (w & Hw & (Hp & _) & _). revert Hw.
  unfold runPagination.
  set (w0 := Watcher.waitForPostsToStabilize _ _ _ _ _ _).
  destruct (Watcher.promise w0) eqn:Hp0; simpl; intros [= <-];
    [|congruence|congruence].
  repeat split; simpl; try done.
  intros w' [= <-]. unfold w0, Watcher.waitForPostsToStabilize, Watcher.check.
  simpl. destruct (_ >? 300)%Z; [done|]. by destruct (_ >? 5000)%Z.
Qed.

Lemma idle_run trace : forall s,
  watcher s = None ->
  watcher (run s trace) = None /\ paginations (run s trace) = paginations s.
Proof.
  induction trace as [|e trace IH]; intros s Hw; [done|].
  change (run s (e :: trace)) with (run (step s e) trace).
  assert (Hstep : watcher (step s e) = None
                  /\ paginations (step s e) = paginations s).
  { destruct e; simpl; try done. by rewrite Hw. by rewrite Hw. }
  destruct Hstep as [Hw' Hn']. rewrite <- Hn'. by apply IH.
Qed.

Lemma runPagination_clicked t0 t1 t2 t3 s :
  clicked (runPagination t0 t1 t2 t3 s) = clicked s.
Proof. unfold runPagination. by destruct (Watcher.promise _). Qed.

Lemma runPagination_hold t0 t1 t2 t3 s :
  (t2 - t1 <= 300)%Z -> (t3 - t0 <= 5000)%Z -> paginations s = 0%nat ->
  on_hold (runPagination t0 t1 t2 t3 s).
Proof.
  intros H1 H2 Hn. unfold runPagination, Watcher.waitForPostsToStabilize.
  unfold Watcher.check. simpl.
  destruct (Z.gtb_spec (t2 - t1) 300); [lia|].
  destruct (Z.gtb_spec (t3 - t0) 5000); [lia|].
  simpl. eexists. simpl. split; [done|]. split; [|done].
  unfold Watcher.waiting. simpl. done.
Qed.

Lemma after_click_frame host posts others pg :
  widget (after_click host posts others pg) = widget pg
  /\ onPageCalls (after_click host posts others pg) = onPageCalls pg.
Proof. unfold after_click. by destruct (SeeAll.findSeeAllLink posts). Qed.

(** X19.  Without a [#posts] table [init] only writes one line to the
    console: whatever happens afterwards, no watcher is ever started, no
    anchor is clicked and [paginate] is never called. *)
Theorem init_without_table
    (host : nat -> list Row -> list Stray ->
            list Row * list Stray * bool) (others : list Stray)
    (t0 t1 t2 t3 : Z) (pg : Page) (trace : list Event) :
  let s := run (init host None others t0 t1 t2 t3 pg) trace in
  page (init host None others t0 t1 t2 t3 pg)
  = log "no #posts table found on page" pg
  /\ watcher s = None /\ clicked s = [] /\ paginations s = 0%nat.
Proof.
  intros s. split; [done|]. subst s. rewrite run_clicked.
  destruct (idle_run trace (init host None others t0 t1 t2 t3 pg)) as [Hw Hn];
    [done|].
  by rewrite Hw, Hn.
Qed.

(** X20.  With a [#posts] table, at every point of every run the session
    is either on hold, its watcher waiting and [paginate] not yet called,
    or through, its watcher settled and [paginate] called exactly once:
    [paginate] never runs before the watcher settles and never runs
    twice.  The only anchor ever clicked is the expand link, if there is
    one, and it is clicked once. *)
Theorem init_paginates_once
    (host : nat -> list Row -> list Stray ->
            list Row * list Stray * bool)
    (anchors : list SeeAll.Anchor) (others : list Stray) (t0 t1 t2 t3 : Z)
    (pg : Page)
    (trace : list Event) :
  let s := run (init host (Some anchors) others t0 t1 t2 t3 pg) trace in
  (on_hold s \/ through s)
  /\ (paginations s <= 1)%nat
  /\ clicked s = match SeeAll.findSeeAllLink (Some anchors) with
                 | Some seeAll => [seeAll]
                 | None => []
                 end.
Proof.
  intros s.
  assert (Hphase : on_hold s \/ through s).
  { apply phase_run, phase_init. }
  split; [done|]. split.
  - destruct Hphase as [(w & _ & _ & ->)|(w & _ & _ & ->)]; lia.
  - subst s. rewrite run_clicked, init_unfold. by rewrite runPagination_clicked.
Qed.

(** X21.  On a page without a widget, as long as the session is on hold
    the script has left the page alone: there is still no widget, no page
    callback has run, the console holds nothing beyond the line written
    before the click, and the count kept by the watcher is the number of
    [tr.post] rows now in the table. *)
Theorem hold_leaves_page_alone
    (host : nat -> list Row -> list Stray ->
            list Row * list Stray * bool)
    (anchors : list SeeAll.Anchor) (others : list Stray) (t0 t1 t2 t3 : Z)
    (pg : Page)
    (trace : list Event) :
  widget pg = None ->
  let s := run (init host (Some anchors) others t0 t1 t2 t3 pg) trace in
  on_hold s ->
  untouched (onPageCalls pg)
    (console (after_click host (Some anchors) others pg)) s.
Proof.
  intros Hwid s Hhold. subst s. revert Hhold. rewrite init_unfold.
  set (s0 := runPagination _ _ _ _ _). intros Hhold.
  destruct (after_click_frame host (Some anchors) others pg) as [Hw Hc].
  destruct (phase_runPagination t0 t1 t2 t3
              (mkSession (after_click host (Some anchors) others pg)
                 (strays_after_click host (Some anchors) others pg)
                 (match SeeAll.findSeeAllLink (Some anchors) with
                  | Some seeAll => [seeAll]
                  | None => []
                  end) None 0) eq_refl) as [Hh0|Ht0].
  - destruct (hold_run (onPageCalls pg)
                (console (after_click host (Some anchors) others pg)) trace s0)
      as [[_ Hu]|[Ht _]]; [done| |done|].
    + apply untouched_runPagination; simpl; [congruence|done|done|done].
    + destruct (hold_not_through _ Hhold Ht).
  - destruct (hold_not_through _ Hhold (through_run trace _ Ht0)).
Qed.

Lemma hold_leaves_page_alone_witness :
  untouched [] ["See all link found — triggering it and waiting for posts to load"]
    (run (init (loading_host sample_rows) (Some sample_anchors) [] 0 0 0 0
            blank_page)
       [HostRows (replicate 12 (mkRow "post" ""))
          [mkStray 12 (mkRow "post" "")] 40; Timer 100 100;
        NextClick]).
Proof.
  apply (hold_leaves_page_alone (loading_host sample_rows) sample_anchors []
           0 0 0 0 blank_page
           [HostRows (replicate 12 (mkRow "post" ""))
          [mkStray 12 (mkRow "post" "")] 40; Timer 100 100;
            NextClick]).
  - reflexivity.
  - eexists. split; [reflexivity|]. split; [|reflexivity].
    repeat split; reflexivity.
Defined.

(** X22.  On a clock that does not run backwards, with timers that do not
    fire early, the session is through after more than fifty polls,
    whatever the host does to the table in between: [paginate] has then
    been called, once. *)
Theorem init_paginates_eventually
    (host : nat -> list Row -> list Stray ->
            list Row * list Stray * bool)
    (anchors : list SeeAll.Anchor) (others : list Stray) (t0 t1 t2 t3 : Z)
    (pg : Page)
    (trace : list Event) :
  (t0 <= t3)%Z ->
  Watcher.well_timed t3 t3 (omap watcher_event trace) ->
  (5000 < 100 * Z.of_nat (Watcher.timer_count (omap watcher_event trace)))%Z ->
  let s := run (init host (Some anchors) others t0 t1 t2 t3 pg) trace in
  through s /\ paginations s = 1%nat.
Proof.
  intros Hclock Hwt Hcount s.
  assert (Hthrough : through s); [|split; [done|]].
  2: { by destruct Hthrough as (w & _ & _ & Hn). }
  destruct (phase_run trace (init host (Some anchors) others t0 t1 t2 t3 pg)
              (phase_init host anchors others t0 t1 t2 t3 pg))
    as [(w & Hw & Hwait & _)|Ht]; [|done].
  exfalso. fold s in Hw. unfold s in Hw. rewrite run_watcher in Hw.
  rewrite init_unfold in Hw. unfold runPagination in Hw.
  destruct (WatcherFacts.executor_invariant
              (post_count (strays_after_click host (Some anchors) others pg)
                 (rows (after_click host (Some anchors) others pg)))
              None t0 t1 t2 t3) as (Hstart & Hlimit & Hinit).
  simpl in Hw, Hstart, Hlimit, Hinit.
  set (w0 := Watcher.waitForPostsToStabilize _ _ _ _ _ _) in *.
  assert (Hsettled : Watcher.settled
                       (Watcher.run w0 (omap watcher_event trace))).
  { destruct Hinit as [Hs|[Hw0 Hle]].
    - by rewrite WatcherFacts.settled_run.
    - apply (WatcherFacts.run_settles _ w0 t3 t3); [done| |done|];
        rewrite Hstart, Hlimit; lia. }
  assert (Hw' : Some (Watcher.run w0 (omap watcher_event trace)) = Some w).
  { rewrite <- Hw. by destruct (Watcher.promise w0). }
  injection Hw' as <-.
  destruct Hwait as (Hp & _). destruct Hsettled as (Hp' & _). congruence.
Qed.

Lemma init_paginates_eventually_witness :
  through
    (run (init (loading_host sample_rows) (Some sample_anchors) [] 0 0 0 0
            blank_page) (polls 0 51))
  /\ paginations
       (run (init (loading_host sample_rows) (Some sample_anchors) [] 0 0 0 0
               blank_page) (polls 0 51)) = 1%nat.
Proof.
  apply (init_paginates_eventually (loading_host sample_rows) sample_anchors []
           0 0 0 0 blank_page (polls 0 51)).
  - lia.
  - cbn. repeat split; lia.
  - vm_compute. reflexivity.
Defined.

(** X23.  When the clock readings of [init] are those of one turn, no
    more than 300 ms apart, [init] itself never calls [paginate]: it
    leaves the session on hold, the table being the one left by the
    click.  If the session is through later on, it went
    through at one poll, before which it was on hold with the page
    untouched, and [paginate] got the page as it stood at that poll, with
    whatever rows the host had put there by then. *)
Theorem paginate_takes_settled_table
    (host : nat -> list Row -> list Stray ->
            list Row * list Stray * bool)
    (anchors : list SeeAll.Anchor) (others : list Stray) (t0 t1 t2 t3 : Z)
    (pg : Page)
    (trace : list Event) :
  (t2 - t1 <= 300)%Z -> (t3 - t0 <= 5000)%Z -> widget pg = None ->
  let s0 := init host (Some anchors) others t0 t1 t2 t3 pg in
  on_hold s0
  /\ page s0 = after_click host (Some anchors) others pg
  /\ (through (run s0 trace) ->
      exists before now1 now2 after,
        trace = before ++ Timer now1 now2 :: after
        /\ on_hold (run s0 before)
        /\ widget (page (run s0 before)) = None
        /\ page (run s0 (before ++ [Timer now1 now2]))
           = paginate (page (run s0 before))).
Proof.
  intros H1 H2 Hwid s0. subst s0. rewrite init_unfold.
  set (s := mkSession _ _ _ _ _).
  pose proof (runPagination_hold t0 t1 t2 t3 s H1 H2 eq_refl) as Hhold.
  destruct (after_click_frame host (Some anchors) others pg) as [Hw Hc].
  split; [done|]. split.
  { destruct Hhold as (w & Hw0 & (Hp & _) & _). revert Hw0.
    unfold runPagination.
    set (w0 := Watcher.waitForPostsToStabilize _ _ _ _ _ _).
    destruct (Watcher.promise w0) eqn:Hp0; simpl; [done| |];
      intros [= <-]; congruence. }
  intros Hthrough.
  destruct (hold_run (onPageCalls pg)
              (console (after_click host (Some anchors) others pg)) trace
              (runPagination t0 t1 t2 t3 s))
    as [[Hh _]|[_ Hsplit]]; [done| | |].
  - apply untouched_runPagination; simpl; [congruence|done|done|done].
  - destruct (hold_not_through _ Hh Hthrough).
  - destruct Hsplit as (before & now1 & now2 & after & -> & Hh & Hu & Hpage).
    exists before, now1, now2, after. split; [done|]. split; [done|].
    split; [|done]. by destruct Hu as (? & _).
Qed.

Lemma paginate_takes_settled_table_witness :
  through
    (run (init (loading_host sample_rows) (Some sample_anchors) [] 0 0 0 0
            blank_page)
       (HostRows (replicate 12 (mkRow "post" "")) [] 40 :: polls 0 4))
  /\ exists before now1 now2 after,
       HostRows (replicate 12 (mkRow "post" "")) [] 40 :: polls 0 4
       = before ++ Timer now1 now2 :: after
       /\ on_hold
            (run (init (loading_host sample_rows) (Some sample_anchors)
                    [] 0 0 0 0 blank_page) before)
       /\ widget
            (page (run (init (loading_host sample_rows) (Some sample_anchors)
                          [] 0 0 0 0 blank_page) before)) = None
       /\ page (run (init (loading_host sample_rows) (Some sample_anchors)
                       [] 0 0 0 0 blank_page) (before ++ [Timer now1 now2]))
          = paginate
              (page (run (init (loading_host sample_rows)
                            (Some sample_anchors) [] 0 0 0 0 blank_page)
                       before)).
Proof.
  assert (Hthrough :
    through
      (run (init (loading_host sample_rows) (Some sample_anchors) [] 0 0 0 0
              blank_page)
         (HostRows (replicate 12 (mkRow "post" "")) [] 40 :: polls 0 4))).
  { eexists. split; [reflexivity|]. split; [|reflexivity].
    repeat split; reflexivity. }
  split; [exact Hthrough|].
  apply (paginate_takes_settled_table (loading_host sample_rows)
           sample_anchors [] 0 0 0 0 blank_page
           (HostRows (replicate 12 (mkRow "post" "")) [] 40 :: polls 0 4));
    [lia|lia|reflexivity|exact Hthrough].
Defined.

End OrchestratorFacts.

(** ** Loading the script *)

Module LoaderFacts.
Import Loader.

(** Runs done and runs to come add up to one once the flag is set, to none
    before; a document still loading has not dispatched
    [DOMContentLoaded]. *)
Lemma step_balance h e :
  (initRuns h + pending_inits h
   = if Script.__sfcPaginatorInitialized (window h) then 1 else 0)%nat ->
  (Script.readyState (window h) = Script.Loading ->
   contentLoaded h = false) ->
  (initRuns (step h e) + pending_inits (step h e)
   = if Script.__sfcPaginatorInitialized (window (step h e))
     then 1 else 0)%nat
  /\ (Script.readyState (window (step h e)) = Script.Loading ->
      contentLoaded (step h e) = false)
  /\ (Script.__sfcPaginatorInitialized (window h) = true ->
      Script.__sfcPaginatorInitialized (window (step h e)) = true)
  /\ (initRuns h <= initRuns (step h e))%nat.
Proof.
  destruct h as [[flag ready timeouts listeners] loaded runs].
  unfold pending_inits. simpl. intros Hsum Hready.
  destruct e; simpl.
  - unfold Script.script. simpl.
    destruct flag; simpl; [by repeat split|].
    destruct ready; simpl; rewrite ?length_app; simpl.
    + rewrite Hready by done. rewrite Hready in Hsum by done.
      repeat split; try done; lia.
    + repeat split; try done; lia.
    + repeat split; try done; lia.
  - destruct timeouts as [|[delay []] rest]; simpl; [by repeat split|].
    simpl in Hsum. repeat split; try done; lia.
  - destruct ready; simpl; repeat split; try done; lia.
  - destruct ready; simpl; try (repeat split; try done; lia).
    destruct loaded; simpl; repeat split; try done; lia.
  - destruct ready; simpl; try (repeat split; try done; lia).
    destruct loaded; simpl; repeat split; try done; lia.
Qed.

(** X24.  Whatever the state of the document when the script first
    arrives, however often it is evaluated again and in whatever order
    timeouts fire and the document goes through its loading states: once
    the script has been evaluated the runs of [init] done and those still
    scheduled add up to exactly one, so [init] runs at most once and its
    one run is either done or still scheduled; before, there are none.
    The flag is set exactly when the script has been evaluated. *)
Theorem init_scheduled_once (r : Script.ReadyState) (loaded : bool)
    (trace : list Event) :
  let h := run (fresh r loaded) trace in
  (initRuns h + pending_inits h
   = if Script.__sfcPaginatorInitialized (window h) then 1 else 0)%nat
  /\ (initRuns h <= 1)%nat
  /\ (Script.__sfcPaginatorInitialized (window h)
      = existsb is_inject trace).
Proof.
  intros h.
  assert (Hgen : forall h0 : Host,
    (initRuns h0 + pending_inits h0
     = if Script.__sfcPaginatorInitialized (window h0) then 1 else 0)%nat ->
    (Script.readyState (window h0) = Script.Loading ->
     contentLoaded h0 = false) ->
    (initRuns (run h0 trace) + pending_inits (run h0 trace)
     = if Script.__sfcPaginatorInitialized (window (run h0 trace))
       then 1 else 0)%nat
    /\ Script.__sfcPaginatorInitialized (window (run h0 trace))
       = Script.__sfcPaginatorInitialized (window h0)
         || existsb is_inject trace).
  { clear. induction trace as [|e trace IH]; intros h0 Hsum Hready.
    - split; [done|]. simpl. by rewrite orb_false_r.
    - change (run h0 (e :: trace)) with (run (step h0 e) trace).
      destruct (step_balance h0 e Hsum Hready) as (Hsum' & Hready' & Hflag & _).
      destruct (IH (step h0 e) Hsum' Hready') as [Hs Hf].
      split; [done|]. rewrite Hf.
      destruct (Script.__sfcPaginatorInitialized (window h0)) eqn:Hflag0.
      { by rewrite Hflag. }
      destruct e; simpl.
      + unfold Script.script. rewrite Hflag0.
        by destruct (Script.readyState (window h0)).
      + destruct (Script.timeouts (window h0)) as [|[delay []] rest];
          simpl; by rewrite Hflag0.
      + destruct (Script.readyState (window h0)); simpl; by rewrite Hflag0.
      + destruct (Script.readyState (window h0)), (contentLoaded h0);
          simpl; by rewrite Hflag0.
      + destruct (Script.readyState (window h0)), (contentLoaded h0);
          simpl; by rewrite Hflag0. }
  destruct (Hgen (fresh r loaded)) as [Hsum Hflag].
  - by destruct r, loaded.
  - simpl. by intros ->.
  - fold h in Hsum, Hflag. split; [done|]. split; [|done].
    destruct (Script.__sfcPaginatorInitialized (window h)); lia.
Qed.

End LoaderFacts.
